(** * rsync-web: the backup executor (run orchestrator)

    A shallow embedding of the executor of rsync-web (the Go file that
    declares [BackupExecutor]): single-flight run start, exit-code
    classification, bounded run history with persistence, transcript
    retention, the rsync argument vector and the log-name filter.

    Conventions.
    - Go [int] values that are only compared or printed are [Z].
    - Go strings are byte strings ([string]); [+:+] is concatenation.
    - The executor only touches files of its log directory, always through
      [filepath.Join(cfg.LogDir, name)] with a separator-free [name]; the
      log directory is a finite map from entry names to nodes and such a
      path is represented by [name].
    - What the operating system, the clock, the JSON codec and the child
      process decide is an explicit input: an oracle record, a clock
      reading, an instance of the class [JSON].
    - The mutex makes the critical sections of [Run] and [finishRun]
      atomic. Outside of them a goroutine [execute] proceeds by steps, one
      per access to the log directory, and the steps of different
      goroutines and the calls of the handlers interleave; a trace is a
      list of such atomic events. *)

From Stdlib Require Import ZArith Ascii DecimalString DecimalPos DecimalZ.
From stdpp Require Import gmap strings list sorting.

Local Open Scope Z_scope.

(** ** Go library functions, as far as the executor uses them *)

Module GoStrings.

(** [strings.HasPrefix]. *)
Fixpoint HasPrefix (s prefix : string) : bool :=
  match prefix, s with
  | EmptyString, _ => true
  | String _ _, EmptyString => false
  | String a p, String b r => if decide (a = b) then HasPrefix r p else false
  end.

(** Bytes [s[n:]]. *)
Fixpoint drop_bytes (n : nat) (s : string) : string :=
  match n, s with
  | O, _ => s
  | S _, EmptyString => EmptyString
  | S m, String _ r => drop_bytes m r
  end.

(** Bytes [s[:n]], all of [s] when it is shorter. *)
Fixpoint take_bytes (n : nat) (s : string) : string :=
  match n, s with
  | O, _ => EmptyString
  | S _, EmptyString => EmptyString
  | S m, String a r => String a (take_bytes m r)
  end.

(** [strings.HasSuffix]:
    [len(s) >= len(suffix) && s[len(s)-len(suffix):] == suffix]. *)
Definition HasSuffix (s suffix : string) : bool :=
  bool_decide (String.length suffix ≤ String.length s)%nat
  && bool_decide (drop_bytes (String.length s - String.length suffix) s = suffix).

(** [strings.Contains]: [substr] occurs somewhere in [s]. *)
Fixpoint Contains (s substr : string) : bool :=
  HasPrefix s substr
  || match s with
     | EmptyString => false
     | String _ r => Contains r substr
     end.

Fixpoint has_byte (c : ascii) (cutset : string) : bool :=
  match cutset with
  | EmptyString => false
  | String d r => if decide (c = d) then true else has_byte c r
  end.

(** [strings.TrimRight] for a cutset of ASCII bytes: all trailing bytes
    that belong to [cutset] are removed. *)
Fixpoint TrimRight (s cutset : string) : string :=
  match s with
  | EmptyString => EmptyString
  | String c r =>
      match TrimRight r cutset with
      | EmptyString => if has_byte c cutset then EmptyString else String c EmptyString
      | t => String c t
      end
  end.

(** [strings.Join]. *)
Fixpoint Join (elems : list string) (sep : string) : string :=
  match elems with
  | [] => EmptyString
  | [e] => e
  | e :: rest => e +:+ sep +:+ Join rest sep
  end.

(** [n] copies of the byte string [s]. *)
Fixpoint Repeat (s : string) (n : nat) : string :=
  match n with
  | O => EmptyString
  | S m => s +:+ Repeat s m
  end.

End GoStrings.

(** The verb [%d] of [fmt]: decimal digits, a leading [-] when negative. *)
Definition itoa (z : Z) : string := NilZero.string_of_int (Z.to_int z).

Module GoTime.

(** A clock reading: the instant (nanoseconds since the Unix epoch) and
    its presentation in the local zone, which is what [Format] prints. *)
Record Time := mkTime {
  year : Z; month : Z; day : Z;
  hour : Z; minute : Z; second : Z;
  nanosecond : Z;
  zoneOffset : Z;     (* seconds east of UTC *)
  unixNano : Z
}.

(** The zero [time.Time]: January 1, year 1, 00:00:00 UTC. *)
Definition zeroTime : Time :=
  mkTime 1 1 1 0 0 0 0 0 (-62135596800 * 1000000000).

(** [appendInt] of package time: [x] in decimal, zero-padded to [width]
    digits, with a leading [-] when negative. *)
Definition appendInt (x : Z) (width : nat) : string :=
  let digits := NilZero.string_of_uint (N.to_uint (Z.abs_N x)) in
  (if x <? 0 then "-" else "")
  +:+ GoStrings.Repeat "0" (width - String.length digits)
  +:+ digits.

(** [t.Format("20060102-150405")]. *)
Definition FormatStamp (t : Time) : string :=
  appendInt (year t) 4 +:+ appendInt (month t) 2 +:+ appendInt (day t) 2
  +:+ "-"
  +:+ appendInt (hour t) 2 +:+ appendInt (minute t) 2 +:+ appendInt (second t) 2.

(** [t.Format(time.RFC3339)], layout [2006-01-02T15:04:05Z07:00]. *)
Definition FormatRFC3339 (t : Time) : string :=
  appendInt (year t) 4 +:+ "-" +:+ appendInt (month t) 2 +:+ "-" +:+ appendInt (day t) 2
  +:+ "T"
  +:+ appendInt (hour t) 2 +:+ ":" +:+ appendInt (minute t) 2 +:+ ":" +:+ appendInt (second t) 2
  +:+ (let zone := Z.quot (zoneOffset t) 60 in
       if zoneOffset t =? 0 then "Z"
       else (if zone <? 0 then "-" else "+")
            +:+ appendInt (Z.quot (Z.abs zone) 60) 2 +:+ ":"
            +:+ appendInt (Z.rem (Z.abs zone) 60) 2).

Definition Second : Z := 1000000000.
Definition minDuration : Z := - 2 ^ 63.
Definition maxDuration : Z := 2 ^ 63 - 1.

(** [t.Sub(u)]: the difference, saturated to the range of [Duration]. *)
Definition Sub (t u : Time) : Z :=
  let d := unixNano t - unixNano u in
  if d <? minDuration then minDuration
  else if maxDuration <? d then maxDuration
  else d.

(** [d.Truncate(m)]: rounding toward zero to a multiple of [m]. *)
Definition Truncate (d m : Z) : Z :=
  if m <=? 0 then d else d - Z.rem d m.

(** [d.String()] for a duration that is a whole number of seconds, the
    only case that arises after [Truncate(time.Second)]. *)
Definition DurationString (d : Z) : string :=
  let u := Z.abs d / Second in
  if u =? 0 then "0s"
  else
    (if d <? 0 then "-" else "")
    +:+ (if 0 <? u / 3600 then itoa (u / 3600) +:+ "h" else "")
    +:+ (if 0 <? u / 60 then itoa ((u / 60) mod 60) +:+ "m" else "")
    +:+ itoa (u mod 60) +:+ "s".

End GoTime.
Export GoTime.

(** ** Data model *)

(** [type BackupStatus string]: any string can be a status (the history
    file is decoded into it); the five constants are the ones the executor
    itself assigns. *)
Abbreviation BackupStatus := string (only parsing).

Definition StatusIdle : BackupStatus := "idle".
Definition StatusRunning : BackupStatus := "running".
Definition StatusSuccess : BackupStatus := "success".
Definition StatusWarning : BackupStatus := "warning".
Definition StatusFailed : BackupStatus := "failed".

Record BackupRun := mkBackupRun {
  ID : string;
  StartTime : Time;
  EndTime : Time;
  Duration : string;
  Status : BackupStatus;
  ExitCode : Z;
  LogFile : string;
  Summary : string
}.

Record Config := mkConfig {
  SourcePath : string;
  SourceIsFile : bool;
  RemoteHost : string;
  RemotePath : string;
  SSHKeyPath : string;
  Schedule : string;
  BandwidthLimit : Z;
  ListenAddr : string;
  LogDir : string;
  MaxLogFiles : Z
}.

(** Go errors: [fmt.Errorf] values by their message, and the [*PathError] of
    package os by operation and file name. *)
Inductive error :=
  | errorString (msg : string)
  | PathError (op name : string).

(** ** Outcome classification *)

(** [rsyncExitSummary]. *)
Definition rsyncExitSummary (code : Z) : string :=
  match code with
  | 1 => "syntax or usage error"
  | 2 => "protocol incompatibility"
  | 3 => "errors selecting input/output files"
  | 5 => "error starting client-server protocol"
  | 10 => "error in socket I/O"
  | 11 => "error in file I/O"
  | 12 => "error in rsync protocol data stream"
  | 14 => "error in IPC code"
  | 20 => "interrupted by signal"
  | 23 => "partial transfer — some files could not be transferred"
  | 24 => "partial transfer — some source files vanished during sync"
  | 25 => "max-delete limit reached"
  | 30 => "timeout in data send/receive"
  | 35 => "timeout waiting for daemon connection"
  | 255 => "SSH connection failed — remote host unreachable or auth denied"
  | _ => "rsync error (exit code " +:+ itoa code +:+ ")"
  end.

(** [isPartialTransfer]. *)
Definition isPartialTransfer (exitCode : Z) : bool :=
  (exitCode =? 23) || (exitCode =? 24).

(** The [switch] of [finishRun]: the status given to the run and to the
    executor. *)
Definition finishStatus (exitCode : Z) : BackupStatus :=
  if exitCode =? 0 then StatusSuccess
  else if isPartialTransfer exitCode then StatusWarning
  else StatusFailed.

(** What [cmd.Run()] returns when it fails: an [*exec.ExitError] carrying
    the exit code of the child, or any other error (the program could not
    be started, I/O failure). *)
Inductive RunError :=
  | ExitError (code : Z)
  | OtherError (msg : string).

(** The lines of [execute] that turn the result of [cmd.Run()] into the
    exit code and summary handed to [finishRun]. *)
Definition exitOutcome (err : option RunError) : Z * string :=
  match err with
  | None => (0, "completed successfully")
  | Some e =>
      let exitCode := match e with ExitError c => c | OtherError _ => 1 end in
      (exitCode, rsyncExitSummary exitCode)
  end.

(** ** The rsync argument vector *)

(** [buildRsyncArgs]. *)
Definition buildRsyncArgs (cfg : Config) : list string :=
  let args :=
    [ "-avz"; "--delete"; "--partial"; "--stats"; "-e";
      "ssh -i " +:+ SSHKeyPath cfg
        +:+ " -o StrictHostKeyChecking=no -o UserKnownHostsFile=/dev/null" ] in
  let args :=
    if 0 <? BandwidthLimit cfg
    then args ++ [ "--bwlimit=" +:+ itoa (BandwidthLimit cfg) ]
    else args in
  let source :=
    if SourceIsFile cfg then SourcePath cfg
    else GoStrings.TrimRight (SourcePath cfg) "/" +:+ "/" in
  let dest :=
    RemoteHost cfg +:+ ":" +:+ GoStrings.TrimRight (RemotePath cfg) "/" +:+ "/" in
  args ++ [source; dest].

(** ** The log directory *)

Inductive Node :=
  | File (data : string)
  | SubDir.

Record DirEntry := mkDirEntry { Name : string; IsDir : bool }.

(** Ascending order of entry names (byte-wise, as Go compares strings). *)
Definition entry_le (a b : DirEntry) : Prop := String.le (Name a) (Name b).

#[global] Instance entry_le_dec : RelDecision entry_le.
Proof. intros a b. unfold entry_le. apply _. Defined.

Definition toDirEntry (kv : string * Node) : DirEntry :=
  mkDirEntry kv.1 (match kv.2 with SubDir => true | File _ => false end).

(** [os.ReadDir]: the entries of the directory, sorted by file name. *)
Definition os_ReadDir (d : gmap string Node) : list DirEntry :=
  merge_sort entry_le (toDirEntry <$> map_to_list d).

(** [os.ReadFile]: the content of a regular file, [None] for an error. *)
Definition os_ReadFile (d : gmap string Node) (name : string) : option string :=
  match d !! name with
  | Some (File data) => Some data
  | _ => None
  end.

(** What became of a call of [os.WriteFile], which opens the file with
    [O_WRONLY|O_CREATE|O_TRUNC], writes the data and closes the file: no
    error; the file could not be opened, and nothing has changed; or the
    file was opened, hence created or emptied, and an error came up when
    [n] bytes had been written. *)
Inductive WriteResult :=
  | WriteDone
  | OpenFailed
  | WriteFailed (n : nat).

(** [os.WriteFile]. *)
Definition os_WriteFile (d : gmap string Node) (name data : string) (res : WriteResult)
  : gmap string Node :=
  match res with
  | WriteDone => <[name := File data]> d
  | OpenFailed => d
  | WriteFailed n => <[name := File (GoStrings.take_bytes n data)]> d
  end.

(** [os.Create]: the file is created, or emptied when it exists; [ok]
    tells whether the operating system lets the call succeed. *)
Definition os_Create (d : gmap string Node) (name : string) (ok : bool)
  : gmap string Node :=
  if ok then <[name := File EmptyString]> d else d.

(** [Write] on the file that [os.Create] returned for [name], as
    [fmt.Fprintf] and the child process call it. [accepted] is the number
    of bytes that reach the file before an error, [None] when all of them
    do; [execute] ignores the error. The file was empty after [os.Create]
    and the goroutine that created it (with its child) is the only
    writer, so the bytes are appended. Once the entry has been removed,
    the bytes go to a file that no name leads to and the directory is
    left as it is. *)
Definition file_Write (d : gmap string Node) (name data : string) (accepted : option nat)
  : gmap string Node :=
  match d !! name with
  | Some (File old) =>
      let written := match accepted with
                     | None => data
                     | Some n => GoStrings.take_bytes n data
                     end in
      <[name := File (old +:+ written)]> d
  | _ => d
  end.

(** [os.Remove]; [ok] tells whether the call succeeds. *)
Definition os_Remove (d : gmap string Node) (name : string) (ok : bool)
  : gmap string Node :=
  if ok then delete name d else d.

(** ** The JSON codec

    [json.MarshalIndent] and [json.Unmarshal] at the type [[]BackupRun];
    [None] stands for a returned error. *)
Class JSON := {
  json_MarshalIndent : list BackupRun → option string;
  json_Unmarshal : string → option (list BackupRun)
}.

(** What the executor relies on: a document written by the encoder is read
    back as the value it was made from. *)
Class JSONRoundTrip `{JSON} : Prop :=
  json_roundtrip :
    ∀ runs data, json_MarshalIndent runs = Some data → json_Unmarshal data = Some runs.

(** ** The executor *)

(** [BackupExecutor]. [current] is a pointer into the heap of run records;
    [mu] is represented by the atomicity of the operations and
    [cmdFactory] by the oracle of [execute]. *)
Record BackupExecutor := mkExecutor {
  cfg : Config;
  status : BackupStatus;
  current : option nat;
  history : list BackupRun
}.

(** The point a goroutine [execute(run, logPath)] has reached: the
    statement it executes next. [FinishRun] carries the arguments of the
    call of [finishRun] and whether the transcript file exists, in which
    case [pruneOldLogs] follows; [RemoveLogs] carries what is left of
    [toRemove]; [Done] is a goroutine that has returned. *)
Inductive Stage :=
  | WriteBanner
  | WriteCommand
  | RunCommand
  | WriteFooter (exitCode : Z) (summary : string)
  | FinishRun (exitCode : Z) (summary : string) (created : bool)
  | ListLogs
  | RemoveLogs (names : list string)
  | Done.

Record Goroutine := mkGoroutine {
  goRun : nat;             (* run *BackupRun *)
  goLogPath : string;      (* logPath *)
  goStage : Stage
}.

(** The process and its surroundings: the executor, the heap of allocated
    [BackupRun] objects, the goroutines [go ex.execute(run, logPath)] that
    were started and have not been scheduled yet, the goroutines that
    have, each with the point it has reached, the log directory, and the
    commands built by [cmdFactory] and run so far. *)
Record World := mkWorld {
  ex : BackupExecutor;
  heap : list BackupRun;
  pending : list (nat * string);
  goroutines : list Goroutine;
  logdir : gmap string Node;
  invoked : list (string * list string)
}.

(** What the surroundings decide during one [execute]. *)
Record ExecOracle := mkOracle {
  createOk : bool;                 (* os.Create(logPath) succeeds *)
  bannerWritten : option nat;      (* bytes of the opening banner that reach the file *)
  commandWritten : option nat;     (* bytes of the command line that reach the file *)
  cmdOutput : string;              (* stdout and stderr of the child *)
  cmdResult : option RunError;     (* the error of cmd.Run() *)
  bannerTime : Time;               (* time.Now() of the closing banner *)
  footerWritten : option nat;      (* bytes of the closing banner that reach the file *)
  finishTime : Time;               (* time.Now() in finishRun *)
  historyWritten : WriteResult;    (* os.WriteFile(historyPath) *)
  readDirOk : bool;                (* os.ReadDir(LogDir) succeeds *)
  removeOk : string → bool         (* os.Remove of that entry succeeds *)
}.

Definition newline : string := String "010"%char EmptyString.

(** [historyPath], the entry of the log directory it names. *)
Definition historyPath : string := "history.json".

(** A log file of the retention policy: the test of the loop in
    [pruneOldLogs]. *)
Definition isLogFile (e : DirEntry) : bool :=
  negb (IsDir e)
  && GoStrings.HasPrefix (Name e) "backup-"
  && GoStrings.HasSuffix (Name e) ".log".

Section Executor.
Context `{JSON}.

(** The methods [Status], [Current], [History] and [LastRun]: copies of
    the state. ([Status] is also a field of [BackupRun], hence the longer
    name of the method.) *)
Definition BackupExecutor_Status (w : World) : BackupStatus := status (ex w).

Definition Current (w : World) : option BackupRun :=
  match current (ex w) with
  | Some p => heap w !! p
  | None => None
  end.

Definition History (w : World) : list BackupRun := history (ex w).

Definition LastRun (w : World) : option BackupRun := head (history (ex w)).

(** [Run]: the two readings of the clock are inputs. *)
Definition Run (now1 now2 : Time) (w : World) : option error * World :=
  if bool_decide (status (ex w) = StatusRunning)
  then (Some (errorString "backup already in progress"), w)
  else
    let runID := FormatStamp now1 in
    let logFileName := "backup-" +:+ runID +:+ ".log" in
    let logPath := logFileName in
    let run := mkBackupRun runID now2 zeroTime "" StatusRunning 0 logFileName "" in
    let p := length (heap w) in
    (None,
     mkWorld (mkExecutor (cfg (ex w)) StatusRunning (Some p) (history (ex w)))
             (heap w ++ [run])
             (pending w ++ [(p, logPath)])
             (goroutines w)
             (logdir w)
             (invoked w)).

(** [saveHistory]: both errors are only logged. *)
Definition saveHistory (e : BackupExecutor) (res : WriteResult) (d : gmap string Node)
  : gmap string Node :=
  match json_MarshalIndent (history e) with
  | None => d
  | Some data => os_WriteFile d historyPath data res
  end.

(** [loadHistory]. *)
Definition loadHistory (e : BackupExecutor) (d : gmap string Node) : BackupExecutor :=
  match os_ReadFile d historyPath with
  | None => e
  | Some data =>
      match json_Unmarshal data with
      | None => e
      | Some runs =>
          match runs with
          | [] => mkExecutor (cfg e) (status e) (current e) runs
          | r :: _ => mkExecutor (cfg e) (Status r) (current e) runs
          end
      end
  end.

(** [NewBackupExecutor]. *)
Definition NewBackupExecutor (c : Config) (d : gmap string Node) : BackupExecutor :=
  loadHistory (mkExecutor c StatusIdle None []) d.

(** [finishRun] on the run object at address [p]. *)
Definition finishRun (p : nat) (exitCode : Z) (summary : string)
    (now : Time) (res : WriteResult) (w : World) : World :=
  match heap w !! p with
  | None => w
  | Some run =>
      let run' :=
        mkBackupRun (ID run) (StartTime run) now
          (DurationString (Truncate (Sub now (StartTime run)) Second))
          (finishStatus exitCode) exitCode (LogFile run) summary in
      let hist := run' :: history (ex w) in
      let hist := if bool_decide (100 < length hist)%nat then take 100 hist else hist in
      let e := mkExecutor (cfg (ex w)) (finishStatus exitCode) None hist in
      mkWorld e (<[p := run']> (heap w)) (pending w) (goroutines w)
              (saveHistory e res (logdir w)) (invoked w)
  end.

(** [pruneOldLogs], run from its first to its last statement. [None] is
    the death of the process by a run-time panic:
    with a negative [MaxLogFiles] the bound of the slice expression
    [logFiles[:len(logFiles)-MaxLogFiles]] lies beyond the collected
    entries, and the goroutine panics at that expression or, when the
    bound is within the capacity of the slice, at the first nil entry.
    The [sort.Slice] call is a sort by name; [os.ReadDir] never lists a
    name twice, so the ascending arrangement is unique. *)
Definition pruneOldLogs (c : Config) (readOk : bool) (rmOk : string → bool)
    (d : gmap string Node) : option (gmap string Node) :=
  if negb readOk then Some d
  else
    let entries := os_ReadDir d in
    let logFiles := filter isLogFile entries in
    if bool_decide (Z.of_nat (length logFiles) ≤ MaxLogFiles c) then Some d
    else
      let sorted := merge_sort entry_le logFiles in
      let n := Z.of_nat (length logFiles) - MaxLogFiles c in
      if bool_decide (Z.of_nat (length logFiles) < n) then None
      else
        let toRemove := take (Z.to_nat n) sorted in
        Some (foldl (λ d' f, os_Remove d' (Name f) (rmOk (Name f))) d toRemove).

(** The statements of [pruneOldLogs] before its last loop: the names of
    [toRemove], none when the function returns early, [None] for the
    panic. *)
Definition toRemove (c : Config) (readOk : bool) (d : gmap string Node)
  : option (list string) :=
  if negb readOk then Some []
  else
    let entries := os_ReadDir d in
    let logFiles := filter isLogFile entries in
    if bool_decide (Z.of_nat (length logFiles) ≤ MaxLogFiles c) then Some []
    else
      let sorted := merge_sort entry_le logFiles in
      let n := Z.of_nat (length logFiles) - MaxLogFiles c in
      if bool_decide (Z.of_nat (length logFiles) < n) then None
      else Some (Name <$> take (Z.to_nat n) sorted).

(** The three texts [execute] prints into the transcript. *)
Definition startBanner (run : BackupRun) : string :=
  "=== Backup started at " +:+ FormatRFC3339 (StartTime run) +:+ " ===" +:+ newline.

Definition commandLine (args : list string) : string :=
  "Command: rsync " +:+ GoStrings.Join args " " +:+ newline +:+ newline.

Definition finishBanner (now : Time) (exitCode : Z) : string :=
  newline +:+ "=== Backup finished at " +:+ FormatRFC3339 now
  +:+ " (exit code: " +:+ itoa exitCode +:+ ") ===" +:+ newline.

(** [execute], the goroutine started by [Run], run from its first to its
    last statement with nothing else of the process in between. The error
    of [os.MkdirAll] is only logged; whether the directory is usable
    shows in [createOk]. *)
Definition execute (p : nat) (logPath : string) (o : ExecOracle) (w : World)
  : option World :=
  if negb (createOk o)
  then Some (finishRun p 1 "failed to create log file" (finishTime o) (historyWritten o) w)
  else
    match heap w !! p with
    | None => None
    | Some run =>
        let args := buildRsyncArgs (cfg (ex w)) in
        let '(exitCode, summary) := exitOutcome (cmdResult o) in
        let d := os_Create (logdir w) logPath true in
        let d := file_Write d logPath (startBanner run) (bannerWritten o) in
        let d := file_Write d logPath (commandLine args) (commandWritten o) in
        let d := file_Write d logPath (cmdOutput o) None in
        let d := file_Write d logPath (finishBanner (bannerTime o) exitCode)
                   (footerWritten o) in
        let w1 :=
          mkWorld (ex w) (heap w) (pending w) (goroutines w) d
                  (invoked w ++ [("rsync", args)]) in
        let w2 := finishRun p exitCode summary (finishTime o) (historyWritten o) w1 in
        match pruneOldLogs (cfg (ex w2)) (readDirOk o) (removeOk o) (logdir w2) with
        | None => None
        | Some d => Some (mkWorld (ex w2) (heap w2) (pending w2) (goroutines w2) d
                            (invoked w2))
        end
    end.

(** One step of a goroutine that has been scheduled before: the statement
    at [goStage g] is executed, with what the surroundings decide during
    it taken from [o]. The result is the world, in which the entry of the
    goroutine is still the old one, and the point reached. [None]: the
    process dies by a panic, or the goroutine has returned already and
    there is no step. *)
Definition goroutine_step (g : Goroutine) (o : ExecOracle) (w : World)
  : option (World * Stage) :=
  let p := goRun g in
  let logPath := goLogPath g in
  let write data accepted :=
    mkWorld (ex w) (heap w) (pending w) (goroutines w)
            (file_Write (logdir w) logPath data accepted) (invoked w) in
  match goStage g with
  | WriteBanner =>
      match heap w !! p with
      | None => None
      | Some run => Some (write (startBanner run) (bannerWritten o), WriteCommand)
      end
  | WriteCommand =>
      Some (write (commandLine (buildRsyncArgs (cfg (ex w)))) (commandWritten o),
            RunCommand)
  | RunCommand =>
      let args := buildRsyncArgs (cfg (ex w)) in
      let '(exitCode, summary) := exitOutcome (cmdResult o) in
      Some (mkWorld (ex w) (heap w) (pending w) (goroutines w)
                    (file_Write (logdir w) logPath (cmdOutput o) None)
                    (invoked w ++ [("rsync", args)]),
            WriteFooter exitCode summary)
  | WriteFooter exitCode summary =>
      Some (write (finishBanner (bannerTime o) exitCode) (footerWritten o),
            FinishRun exitCode summary true)
  | FinishRun exitCode summary created =>
      Some (finishRun p exitCode summary (finishTime o) (historyWritten o) w,
            if created then ListLogs else Done)
  | ListLogs =>
      match toRemove (cfg (ex w)) (readDirOk o) (logdir w) with
      | None => None
      | Some names => Some (w, RemoveLogs names)
      end
  | RemoveLogs [] => Some (w, Done)
  | RemoveLogs (name :: rest) =>
      Some (mkWorld (ex w) (heap w) (pending w) (goroutines w)
                    (os_Remove (logdir w) name (removeOk o name)) (invoked w),
            RemoveLogs rest)
  | Done => None
  end.

(** [ReadLog]: the returned pair and the names handed to [os.ReadFile]. *)
Definition ReadLog (w : World) (filename : string)
  : (string * option error) * list string :=
  if GoStrings.Contains filename "/"
     || GoStrings.Contains filename "\"
     || GoStrings.Contains filename ".."
  then (("", Some (errorString "invalid log filename")), [])
  else
    match os_ReadFile (logdir w) filename with
    | None => (("", Some (PathError "open" filename)), [filename])
    | Some data => ((data, None), [filename])
    end.

(** *** Traces *)

(** The atomic events of a process: the calls of the scheduler and of
    the HTTP handlers; the first step of a started goroutine, which is
    [os.MkdirAll] and [os.Create]; and a further step of a goroutine. *)
Inductive event :=
  | CallRun (now1 now2 : Time)
  | GoStart (i : nat) (o : ExecOracle)
  | GoStep (j : nat) (o : ExecOracle)
  | CallStatus
  | CallCurrent
  | CallHistory
  | CallLastRun
  | CallReadLog (filename : string).

Definition handle (ev : event) (w : World) : option World :=
  match ev with
  | CallRun now1 now2 => Some (Run now1 now2 w).2
  | GoStart i o =>
      match pending w !! i with
      | None => None
      | Some (p, logPath) =>
          let stage := if createOk o then WriteBanner
                       else FinishRun 1 "failed to create log file" false in
          Some (mkWorld (ex w) (heap w) (delete i (pending w))
                        (goroutines w ++ [mkGoroutine p logPath stage])
                        (os_Create (logdir w) logPath (createOk o))
                        (invoked w))
      end
  | GoStep j o =>
      match goroutines w !! j with
      | None => None
      | Some g =>
          match goroutine_step g o w with
          | None => None
          | Some (w', stage) =>
              Some (mkWorld (ex w') (heap w') (pending w')
                            (<[j := mkGoroutine (goRun g) (goLogPath g) stage]>
                               (goroutines w'))
                            (logdir w') (invoked w'))
          end
      end
  | CallStatus | CallCurrent | CallHistory | CallLastRun | CallReadLog _ => Some w
  end.

Fixpoint run_trace (evs : list event) (w : World) : option World :=
  match evs with
  | [] => Some w
  | ev :: rest =>
      match handle ev w with
      | None => None
      | Some w' => run_trace rest w'
      end
  end.

(** The process right after [NewBackupExecutor(cfg)]. *)
Definition boot (c : Config) (d : gmap string Node) : World :=
  mkWorld (NewBackupExecutor c d) [] [] [] d [].

End Executor.

(** ** A codec that satisfies the contract

    Used to run the model on concrete inputs. A number is written in
    unary, a string with its length first, an integer as its decimal
    text, a record field by field, a list with its length first. *)

Module Wire.

Definition put_nat (n : nat) : string := GoStrings.Repeat "1" n +:+ "0".

Fixpoint get_nat (s : string) : option (nat * string) :=
  match s with
  | String "1" r => '(n, r') ← get_nat r; Some (S n, r')
  | String "0" r => Some (O, r)
  | _ => None
  end.

Fixpoint split_at (n : nat) (s : string) : option (string * string) :=
  match n, s with
  | O, _ => Some (EmptyString, s)
  | S m, String a r => '(t, r') ← split_at m r; Some (String a t, r')
  | S _, EmptyString => None
  end.

Definition put_string (s : string) : string := put_nat (String.length s) +:+ s.

Definition get_string (s : string) : option (string * string) :=
  '(n, r) ← get_nat s; split_at n r.

Definition put_Z (z : Z) : string := put_string (itoa z).

Definition get_Z (s : string) : option (Z * string) :=
  '(t, r) ← get_string s;
  d ← NilZero.int_of_string t;
  Some (Z.of_int d, r).

Definition put_Time (t : Time) : string :=
  put_Z (year t) +:+ put_Z (month t) +:+ put_Z (day t)
  +:+ put_Z (hour t) +:+ put_Z (minute t) +:+ put_Z (second t)
  +:+ put_Z (nanosecond t) +:+ put_Z (zoneOffset t) +:+ put_Z (unixNano t).

Definition get_Time (s : string) : option (Time * string) :=
  '(y, s) ← get_Z s; '(mo, s) ← get_Z s; '(d, s) ← get_Z s;
  '(h, s) ← get_Z s; '(mi, s) ← get_Z s; '(sec, s) ← get_Z s;
  '(n, s) ← get_Z s; '(z, s) ← get_Z s; '(u, s) ← get_Z s;
  Some (mkTime y mo d h mi sec n z u, s).

Definition put_run (r : BackupRun) : string :=
  put_string (ID r) +:+ put_Time (StartTime r) +:+ put_Time (EndTime r)
  +:+ put_string (Duration r) +:+ put_string (Status r) +:+ put_Z (ExitCode r)
  +:+ put_string (LogFile r) +:+ put_string (Summary r).

Definition get_run (s : string) : option (BackupRun * string) :=
  '(i, s) ← get_string s; '(st, s) ← get_Time s; '(en, s) ← get_Time s;
  '(du, s) ← get_string s; '(sta, s) ← get_string s; '(c, s) ← get_Z s;
  '(l, s) ← get_string s; '(su, s) ← get_string s;
  Some (mkBackupRun i st en du sta c l su, s).

Fixpoint put_items (runs : list BackupRun) : string :=
  match runs with
  | [] => EmptyString
  | r :: rest => put_run r +:+ put_items rest
  end.

Fixpoint get_items (n : nat) (s : string) : option (list BackupRun * string) :=
  match n with
  | O => Some ([], s)
  | S m => '(r, s) ← get_run s; '(rest, s) ← get_items m s; Some (r :: rest, s)
  end.

Definition MarshalIndent (runs : list BackupRun) : option string :=
  Some (put_nat (length runs) +:+ put_items runs).

Definition Unmarshal (data : string) : option (list BackupRun) :=
  '(n, s) ← get_nat data;
  '(runs, s) ← get_items n s;
  if decide (s = EmptyString) then Some runs else None.

End Wire.

Definition wireJSON : JSON :=
  {| json_MarshalIndent := Wire.MarshalIndent; json_Unmarshal := Wire.Unmarshal |}.

(** ** Configuration and saved transfer settings (config.go) *)

(** An error made by [fmt.Errorf(context + ": %w", err)], identified by its
    context; the text of the wrapped error is not represented. *)
Inductive wrappedError :=
  | Wrapped (context : string).

(** [TransferSettings]. *)
Module Settings.
Record TransferSettings := mkTransferSettings {
  SourcePath : string;
  SourceIsFile : bool;
  RemoteHost : string;
  RemotePath : string;
  SSHKeyPath : string
}.
End Settings.

(** [json.MarshalIndent] and [json.Unmarshal] at the type
    [TransferSettings]; [None] stands for a returned error. *)
Class SettingsJSON := {
  settings_MarshalIndent : Settings.TransferSettings → option string;
  settings_Unmarshal : string → option Settings.TransferSettings
}.

Class SettingsRoundTrip `{SettingsJSON} : Prop :=
  settings_roundtrip :
    ∀ s data, settings_MarshalIndent s = Some data → settings_Unmarshal data = Some s.

(** [yaml.Unmarshal(data, cfg)]: the configuration after decoding [data]
    into it, [None] for an error. *)
Class YAML := {
  yaml_Unmarshal : string → Config → option Config
}.

(** The configuration [LoadConfig] starts from. *)
Definition defaultConfig : Config :=
  mkConfig "" false "" "" "" "" 0 ":8090" "./logs" 30.

(** [validate], in the version of config.go that has [TransferSettings]:
    only the schedule is required. *)
Definition validate (c : Config) : option error :=
  if decide (Schedule c = "") then Some (errorString "schedule is required") else None.

(** [LoadConfig]; [read] is the result of [os.ReadFile(path)]. *)
Definition LoadConfig `{YAML} (read : error + string) : option Config * option wrappedError :=
  match read with
  | inl _ => (None, Some (Wrapped "reading config file"))
  | inr data =>
      match yaml_Unmarshal data defaultConfig with
      | None => (None, Some (Wrapped "parsing config file"))
      | Some c =>
          match validate c with
          | Some _ => (None, Some (Wrapped "invalid config"))
          | None => (Some c, None)
          end
      end
  end.

(** [TransferConfigured]. *)
Definition TransferConfigured (c : Config) : bool :=
  negb (bool_decide (SourcePath c = ""))
  && negb (bool_decide (RemoteHost c = ""))
  && negb (bool_decide (RemotePath c = ""))
  && negb (bool_decide (SSHKeyPath c = "")).

(** [SettingsFilePath], the entry of the log directory it names. *)
Definition SettingsFilePath : string := "settings.json".

(** [ApplyTransferSettings]. *)
Definition ApplyTransferSettings (c : Config) (s : Settings.TransferSettings) : Config :=
  mkConfig (Settings.SourcePath s) (Settings.SourceIsFile s) (Settings.RemoteHost s)
           (Settings.RemotePath s) (Settings.SSHKeyPath s)
           (Schedule c) (BandwidthLimit c) (ListenAddr c) (LogDir c) (MaxLogFiles c).

(** [GetTransferSettings]. *)
Definition GetTransferSettings (c : Config) : Settings.TransferSettings :=
  Settings.mkTransferSettings (SourcePath c) (SourceIsFile c) (RemoteHost c)
                              (RemotePath c) (SSHKeyPath c).

(** [LoadTransferSettings]: the returned error and the configuration
    afterwards. A missing file is no error ([os.IsNotExist]); an entry
    that cannot be read as a file is one. *)
Definition LoadTransferSettings `{SettingsJSON} (c : Config) (d : gmap string Node)
  : option wrappedError * Config :=
  match d !! SettingsFilePath with
  | None => (None, c)
  | Some SubDir => (Some (Wrapped "reading settings file"), c)
  | Some (File data) =>
      match settings_Unmarshal data with
      | None => (Some (Wrapped "parsing settings file"), c)
      | Some s => (None, ApplyTransferSettings c s)
      end
  end.

(** [SaveTransferSettings]: the returned error and the log directory
    afterwards; [mkdirOk] tells whether [os.MkdirAll] succeeds, [res] what
    became of [os.WriteFile]. *)
Definition SaveTransferSettings `{SettingsJSON} (c : Config) (mkdirOk : bool)
    (res : WriteResult) (d : gmap string Node) : option wrappedError * gmap string Node :=
  if negb mkdirOk then (Some (Wrapped "creating settings directory"), d)
  else
    match settings_MarshalIndent (GetTransferSettings c) with
    | None => (Some (Wrapped "marshalling settings"), d)
    | Some data =>
        (match res with
         | WriteDone => None
         | _ => Some (Wrapped "writing settings file")
         end,
         os_WriteFile d SettingsFilePath data res)
    end.

(** ** The remote check ([CheckRemotePath]) and the HTTP handlers *)

(** Library functions whose text the model does not fix:
    [strings.TrimSpace] and [template.HTMLEscapeString]. *)
Class GoLibrary := {
  strings_TrimSpace : string → string;
  template_HTMLEscapeString : string → string
}.

(** [strings.Split(s, sep)] for a separator of one byte. *)
Fixpoint SplitByte (s : string) (sep : ascii) : list string :=
  match s with
  | EmptyString => [EmptyString]
  | String a r =>
      if decide (a = sep) then EmptyString :: SplitByte r sep
      else match SplitByte r sep with
           | x :: xs => String a x :: xs
           | [] => [String a EmptyString]
           end
  end.

(** The arguments of the ssh command of [CheckRemotePath]. *)
Definition remoteCheckArgs (c : Config) : list string :=
  let remotePath := GoStrings.TrimRight (RemotePath c) "/" in
  [ "-i"; SSHKeyPath c;
    "-o"; "StrictHostKeyChecking=no";
    "-o"; "UserKnownHostsFile=/dev/null";
    "-o"; "ConnectTimeout=10";
    RemoteHost c;
    "ls -A '" +:+ remotePath +:+ "/' 2>/dev/null | head -5" ].

(** [CheckRemotePath]; [out] is what [cmd.Output()] returns, the error or
    the standard output of the command. The result is [nonEmpty], [files]
    (nil is the empty list) and [err], and the world in which the command
    has been run. *)
Definition CheckRemotePath `{GoLibrary} (out : RunError + string) (w : World)
  : (bool * list string * option wrappedError) * World :=
  let w' := mkWorld (ex w) (heap w) (pending w) (goroutines w) (logdir w)
                    (invoked w ++ [("ssh", remoteCheckArgs (cfg (ex w)))]) in
  match out with
  | inl _ => ((false, [], Some (Wrapped "SSH check failed")), w')
  | inr text =>
      let output := strings_TrimSpace text in
      if decide (output = "") then ((false, [], None), w')
      else ((true, SplitByte output "010"%char, None), w')
  end.

(** What a handler leaves in its [http.ResponseWriter]: the status code,
    the headers the handler sets (under the names the source gives them;
    headers the server adds by itself, such as a sniffed content type, are
    not represented) and the body. *)
Record Response := mkResponse {
  StatusCode : Z;
  Header : gmap string string;
  Body : string
}.

(** [http.Error(w, msg, code)] on a writer that holds the headers [h] and
    to which nothing has been written. *)
Definition http_Error (h : gmap string string) (msg : string) (code : Z) : Response :=
  mkResponse code
    (<["X-Content-Type-Options" := "nosniff"]>
       (<["Content-Type" := "text/plain; charset=utf-8"]> h))
    (msg +:+ newline).

(** The last element of a slash-separated path, read from left to right
    with the element collected so far in [acc]. *)
Fixpoint lastElement (acc s : string) : string :=
  match s with
  | EmptyString => acc
  | String a r =>
      if decide (a = "/"%char) then lastElement EmptyString r
      else lastElement (acc +:+ String a EmptyString) r
  end.

(** [filepath.Base] (Unix): trailing slashes are removed, the last element
    is returned; the empty path gives a dot, a path of slashes only gives
    one slash. *)
Definition filepath_Base (path : string) : string :=
  if decide (path = "") then "."
  else
    let e := lastElement EmptyString (GoStrings.TrimRight path "/") in
    if decide (e = "") then "/" else e.

Definition quote : string := String (ascii_of_nat 34) EmptyString.

(** [handleLogs]: [urlPath] is [r.URL.Path], [hx] tells whether the header
    [HX-Request] is "true". The result is the response and the names
    handed to [os.ReadFile]. *)
Definition handleLogs `{GoLibrary} (urlPath : string) (hx : bool) (w : World)
  : Response * list string :=
  let filename := filepath_Base urlPath in
  if bool_decide (filename = "") || bool_decide (filename = ".")
  then (http_Error ∅ "log filename required" 400, [])
  else
    match ReadLog w filename with
    | ((_, Some _), reads) => (http_Error ∅ "log not found" 404, reads)
    | ((content, None), reads) =>
        if hx
        then (mkResponse 200 {[ "Content-Type" := "text/html" ]}
                ("<pre class=" +:+ quote +:+ "log-content" +:+ quote +:+ ">"
                 +:+ template_HTMLEscapeString content +:+ "</pre>"),
              reads)
        else (mkResponse 200 {[ "Content-Type" := "text/plain" ]} content, reads)
    end.

(** [handleTriggerBackup]: [method] is [r.Method], [fragment] is what
    [handleStatusFragment] writes when it is called. The result is the
    response and the world after the call. *)
Definition handleTriggerBackup `{JSON} (method : string) (hx : bool)
    (now1 now2 : Time) (fragment : Response) (w : World) : Response * World :=
  if negb (bool_decide (method = "POST"))
  then (http_Error ∅ "method not allowed" 405, w)
  else
    match Run now1 now2 w with
    | (Some err, w') =>
        let msg := match err with errorString m => m | PathError op name => op +:+ " " +:+ name end in
        if hx
        then (mkResponse 409 {[ "HX-Reswap" := "none" ]} msg, w')
        else (http_Error ∅ msg 409, w')
    | (None, w') =>
        if hx
        then (mkResponse (StatusCode fragment)
                (Header fragment ∪ {[ "HX-Trigger" := "backup-started" ]})
                (Body fragment), w')
        else (mkResponse 303 {[ "Location" := "/" ]} EmptyString, w')
    end.

(** [handleRemoteWarningFragment]; [out] is the outcome of the ssh command
    in case it is run. *)
Definition handleRemoteWarningFragment `{GoLibrary} (out : RunError + string) (w : World)
  : Response * World :=
  if bool_decide (0 < length (History w))%nat
  then (mkResponse 200 ∅ EmptyString, w)
  else
    match CheckRemotePath out w with
    | ((nonEmpty, files, err), w') =>
        if bool_decide (err ≠ None) || negb nonEmpty
        then (mkResponse 200 ∅ EmptyString, w')
        else
          let preview := GoStrings.Join files ", " in
          let preview := if bool_decide (5 ≤ length files)%nat
                         then preview +:+ ", ..." else preview in
          (mkResponse 200 {[ "Content-Type" := "text/html" ]}
             ("<div class=" +:+ quote +:+ "status-hint warning-hint" +:+ quote
              +:+ " id=" +:+ quote +:+ "remote-warning" +:+ quote +:+ ">"
              +:+ "Remote path already contains files: <strong>"
              +:+ template_HTMLEscapeString preview +:+ "</strong><br>"
              +:+ "Running a backup with <code>--delete</code> will remove any files at the destination "
              +:+ "that are not present in the source. Make sure this is the correct target."
              +:+ "</div>"),
           w')
    end.

(** [DashboardData]. *)
Module Dashboard.
Record DashboardData := mkDashboardData {
  Status : string;
  LastRun : option BackupRun;
  NextRun : Time;
  History : list BackupRun;
  Schedule : string;
  Source : string;
  Dest : string
}.
End Dashboard.

(** [dashboardData]. The four reads of the executor take its lock one
    after the other, so each may see a later state than the one before:
    [wLast], [wHist], [wCur] and [wStat] are the states seen by [LastRun],
    [History], [Current] and [Status]; [nextRun] is what the scheduler
    reports. *)
Definition dashboardData (nextRun : Time) (wLast wHist wCur wStat : World)
  : Dashboard.DashboardData :=
  let last := LastRun wLast in
  let history := History wHist in
  let current := Current wCur in
  let status := BackupExecutor_Status wStat in
  let status := match current with Some _ => StatusRunning | None => status end in
  Dashboard.mkDashboardData status last nextRun history
    (Schedule (cfg (ex wStat)))
    (SourcePath (cfg (ex wStat)))
    (RemoteHost (cfg (ex wStat)) +:+ ":" +:+ RemotePath (cfg (ex wStat))).

(** ** Notions used in the statements *)

(** The exit codes with a summary of their own. *)
Definition knownExitCodes : list Z :=
  [1; 2; 3; 5; 10; 11; 12; 14; 20; 23; 24; 25; 30; 35; 255].

(** [sub] occurs in [s]. *)
Definition occurs_in (sub s : string) : Prop := ∃ pre post, s = pre +:+ sub +:+ post.

(** The record [Run] allocates. *)
Definition startedRecord (now1 now2 : Time) : BackupRun :=
  mkBackupRun (FormatStamp now1) now2 zeroTime "" StatusRunning 0
    ("backup-" +:+ FormatStamp now1 +:+ ".log") "".

(** The record [finishRun] leaves behind for [run]. *)
Definition finishedRecord (run : BackupRun) (exitCode : Z) (summary : string)
    (now : Time) : BackupRun :=
  mkBackupRun (ID run) (StartTime run) now
    (DurationString (Truncate (Sub now (StartTime run)) Second))
    (finishStatus exitCode) exitCode (LogFile run) summary.

(** The three effects an event can have on executor and heap. *)
Inductive effect (w w' : World) : Prop :=
  | effect_none :
      ex w' = ex w → heap w' = heap w → effect w w'
  | effect_started now1 now2 :
      status (ex w) ≠ StatusRunning →
      ex w' = mkExecutor (cfg (ex w)) StatusRunning (Some (length (heap w)))
                (history (ex w)) →
      heap w' = heap w ++ [startedRecord now1 now2] →
      effect w w'
  | effect_finished p run exitCode summary now :
      heap w !! p = Some run →
      ex w' = mkExecutor (cfg (ex w)) (finishStatus exitCode) None
                (take 100 (finishedRecord run exitCode summary now :: history (ex w))) →
      heap w' = <[p := finishedRecord run exitCode summary now]> (heap w) →
      effect w w'.

(** The single-flight invariant: the current pointer is live and the
    status Running, or there is no current run and the status is not
    Running. *)
Definition single_flight (w : World) : Prop :=
  match current (ex w) with
  | Some p => (p < length (heap w))%nat ∧ status (ex w) = StatusRunning
  | None => status (ex w) ≠ StatusRunning
  end.

(** Every goroutine holds a pointer to an allocated run. *)
Definition runs_live (w : World) : Prop :=
  (∀ p logPath, (p, logPath) ∈ pending w → (p < length (heap w))%nat)
  ∧ (∀ g, g ∈ goroutines w → (goRun g < length (heap w))%nat).

(** The event [ev] is the call of [finishRun] by a goroutine. *)
Definition completes (ev : event) (w : World) : Prop :=
  ∃ j o g exitCode summary created,
    ev = GoStep j o ∧ goroutines w !! j = Some g
    ∧ goStage g = FinishRun exitCode summary created.

(** A transcript in the sense of the retention policy: a regular file of
    the directory whose name starts with [backup-] and ends with [.log]. *)
Definition isTranscript (d : gmap string Node) (name : string) : Prop :=
  (∃ data, d !! name = Some (File data))
  ∧ GoStrings.HasPrefix name "backup-" = true
  ∧ GoStrings.HasSuffix name ".log" = true.

(** Removing the entries [names] one after the other. *)
Definition removeAll (rmOk : string → bool) (d : gmap string Node) (names : list string)
  : gmap string Node :=
  foldl (λ m name, os_Remove m name (rmOk name)) d names.

(** Two clock readings within the same wall-clock second. *)
Definition sameSecond (t u : Time) : Prop :=
  year t = year u ∧ month t = month u ∧ day t = day u
  ∧ hour t = hour u ∧ minute t = minute u ∧ second t = second u.

(** The readings a wall clock shows. *)
Definition wallClock (t : Time) : Prop :=
  0 ≤ year t ≤ 9999 ∧ 1 ≤ month t ≤ 12 ∧ 1 ≤ day t ≤ 31
  ∧ 0 ≤ hour t ≤ 23 ∧ 0 ≤ minute t ≤ 59 ∧ 0 ≤ second t ≤ 59.

(** Reading back a field printed by [appendInt]. *)
Definition readInt (s : string) : option Z :=
  (λ u, Z.of_N (N.of_uint u)) <$> NilEmpty.uint_of_string s.

(** [x] is printed with exactly [width] digits and read back as [x]. *)
Definition fieldOk (width : nat) (x : Z) : bool :=
  bool_decide (String.length (appendInt x width) = width)
  && bool_decide (readInt (appendInt x width) = Some x).

(** ** Concrete inputs *)

(** A configuration and clock readings for the examples. *)
Definition exampleConfig : Config :=
  mkConfig "/mnt/plex-media" false "user@backup-host" "/backups/plex"
           "~/.ssh/test_key" "0 3 * * *" 0 ":8090" "./logs" 3.

(** The same configuration with a negative retention cap. *)
Definition negativeCapConfig : Config :=
  mkConfig "/mnt/plex-media" false "user@backup-host" "/backups/plex"
           "~/.ssh/test_key" "0 3 * * *" 0 ":8090" "./logs" (-1).

Definition clock (h mi s ns : Z) : Time :=
  mkTime 2024 3 9 h mi s ns 0
         (1709942400 * 1000000000 + ((h * 60 + mi) * 60 + s) * 1000000000 + ns).

(** An oracle under which nothing fails. *)
Definition quickOracle (res : option RunError) (s : Z) : ExecOracle :=
  mkOracle true None None "sent 10 bytes" res (clock 7 5 s 400) None (clock 7 5 s 500)
           WriteDone true (λ _, true).

(** The events of one goroutine: its start as the [i]-th of the pending
    goroutines and [n] steps as the [j]-th of the scheduled ones. A
    goroutine that creates its transcript and finds nothing to remove
    takes seven steps: three writes around the child, [finishRun], the
    listing, and its return. *)
Definition goroutineEvents (i j : nat) (o : ExecOracle) (n : nat) : list event :=
  GoStart i o :: replicate n (GoStep j o).

(** A trace: a run is started, a second request is refused while it is
    active, the run completes with exit code 23, the status is read, and a
    further run is started. *)
Definition exampleTrace : list event :=
  [ CallRun (clock 7 5 1 100) (clock 7 5 1 101);
    CallRun (clock 7 5 2 100) (clock 7 5 2 101);
    CallCurrent ]
  ++ goroutineEvents 0 0 (quickOracle (Some (ExitError 23)) 3) 7
  ++ [ CallStatus; CallLastRun;
       CallRun (clock 7 5 4 100) (clock 7 5 4 101);
       CallHistory ].

(** Two runs within one second: the first one completes at once. *)
Definition collidingTrace : list event :=
  [ CallRun (clock 7 5 1 100) (clock 7 5 1 101) ]
  ++ goroutineEvents 0 0 (quickOracle None 1) 7
  ++ [ CallRun (clock 7 5 1 900) (clock 7 5 1 901) ].

(** The second run is started while the goroutine of the first one has
    not listed the directory yet. *)
Definition overlappingTrace : list event :=
  [ CallRun (clock 7 5 1 100) (clock 7 5 1 101) ]
  ++ goroutineEvents 0 0 (quickOracle None 3) 5
  ++ [ CallRun (clock 7 5 4 100) (clock 7 5 4 101);
       GoStart 0 (quickOracle None 6) ].

(** A history file whose newest record says "running". *)
Definition staleRun : BackupRun :=
  mkBackupRun "20240309-070501" (clock 7 5 1 0) zeroTime "" StatusRunning 0
              "backup-20240309-070501.log" "".

Definition staleHistoryDir : gmap string Node :=
  {[ historyPath := File (Wire.put_nat 1 +:+ Wire.put_items [staleRun]) ]}.

(** A history file with 101 records. *)
Definition longHistoryDir : gmap string Node :=
  {[ historyPath :=
       File (Wire.put_nat 101
             +:+ Wire.put_items (replicate 101 (finishedRecord staleRun 0 "ok" (clock 7 6 0 0)))) ]}.

Definition twoRuns : list BackupRun :=
  [ finishedRecord (startedRecord (clock 8 0 0 0) (clock 8 0 0 1)) 24
      (rsyncExitSummary 24) (clock 8 30 0 0);
    finishedRecord (startedRecord (clock 7 0 0 0) (clock 7 0 0 1)) 0
      "completed successfully" (clock 7 10 0 0) ].

(** A log directory after five runs, with the history file, a stray file
    and a sub-directory that carries a transcript name. *)
Definition fiveRunsDir : gmap string Node :=
  list_to_map
    [ ("backup-20240309-070504.log", File "run 4");
      ("history.json", File "...");
      ("backup-20240309-070501.log", File "run 1");
      ("backup-20240309-070505.log", File "run 5");
      ("backup-20240309-070400.log", SubDir);
      ("backup-20240309-070503.log", File "run 3");
      ("notes.txt", File "keep me");
      ("backup-20240309-070502.log", File "run 2") ].

(** ** Further notions used in the statements *)

(** A goroutine at this point has not returned from [finishRun]. *)
Definition beforeFinish (stage : Stage) : bool :=
  match stage with
  | WriteBanner | WriteCommand | RunCommand | WriteFooter _ _ | FinishRun _ _ _ => true
  | ListLogs | RemoveLogs _ | Done => false
  end.

(** The runs in flight: the runs of the goroutines, scheduled already or
    not, that have not returned from [finishRun]. *)
Definition inFlight (w : World) : list nat :=
  (fst <$> pending w)
  ++ (goRun <$> filter (λ g, beforeFinish (goStage g)) (goroutines w)).


(** The transcript name [Run] makes from a clock reading. *)
Definition transcriptName (now : Time) : string :=
  "backup-" +:+ FormatStamp now +:+ ".log".

(** A name of the form [backup-*.log]. *)
Definition transcriptShaped (name : string) : bool :=
  GoStrings.HasPrefix name "backup-" && GoStrings.HasSuffix name ".log".

(** Every goroutine writes to a name of that form, and has only such
    names left to remove. *)
Definition pending_transcripts (w : World) : Prop :=
  (∀ p logPath, (p, logPath) ∈ pending w → transcriptShaped logPath)
  ∧ (∀ g, g ∈ goroutines w →
       transcriptShaped (goLogPath g)
       ∧ ∀ names name, goStage g = RemoveLogs names → name ∈ names →
           transcriptShaped name).

(** The names of the transcripts of a directory, in ascending order. *)
Definition transcripts (d : gmap string Node) : list string :=
  Name <$> merge_sort entry_le (filter isLogFile (os_ReadDir d)).

(** How often the byte [c] occurs in [s]. *)
Fixpoint count_byte (c : ascii) (s : string) : nat :=
  match s with
  | EmptyString => 0
  | String a r => (if decide (a = c) then 1 else 0) + count_byte c r
  end.

(** The bytes of a decimal number. *)
Definition isDigit (a : ascii) : bool :=
  bool_decide (a ∈ ["0"; "1"; "2"; "3"; "4"; "5"; "6"; "7"; "8"; "9"]%char).

(** A log directory that holds a settings file and one old transcript. *)
Definition settingsDir : gmap string Node :=
  list_to_map [ ("settings.json", File "saved settings");
                ("backup-20240308-030000.log", File "yesterday") ].

(** The process after its first [Run]. *)
Definition firstRunWorld : World :=
  (@Run (clock 7 5 1 100) (clock 7 5 1 101) (@boot wireJSON exampleConfig settingsDir)).2.

(** A second request while the first run is active, and requests against
    a stale history file. *)
Definition twoRequests : list event :=
  [ CallRun (clock 7 5 1 100) (clock 7 5 1 101);
    CallRun (clock 7 5 2 100) (clock 7 5 2 101) ].


(** The fields of a configuration that are not transfer settings. *)
Definition serviceFields (c : Config) : string * Z * string * string * Z :=
  (Schedule c, BandwidthLimit c, ListenAddr c, LogDir c, MaxLogFiles c).

(** *** Instances for concrete inputs *)

(** Settings written with the string encoding of [Wire]. *)
Definition wire_put_settings (s : Settings.TransferSettings) : string :=
  Wire.put_string (Settings.SourcePath s)
  +:+ (if Settings.SourceIsFile s then "T" else "F")
  +:+ Wire.put_string (Settings.RemoteHost s)
  +:+ Wire.put_string (Settings.RemotePath s)
  +:+ Wire.put_string (Settings.SSHKeyPath s).

Definition wire_get_settings (data : string) : option Settings.TransferSettings :=
  '(src, r) ← Wire.get_string data;
  '(isFile, r) ← match r with
                 | String "T" r' => Some (true, r')
                 | String "F" r' => Some (false, r')
                 | _ => None
                 end;
  '(host, r) ← Wire.get_string r;
  '(path, r) ← Wire.get_string r;
  '(key, r) ← Wire.get_string r;
  if decide (r = EmptyString)
  then Some (Settings.mkTransferSettings src isFile host path key) else None.

Definition wireSettings : SettingsJSON :=
  {| settings_MarshalIndent := λ s, Some (wire_put_settings s);
     settings_Unmarshal := wire_get_settings |}.

(** A decoder that knows one document, which sets the schedule and a
    negative [max_log_files]. *)
Definition negativeCapDocument : string :=
  "schedule: 0 3 * * *" +:+ newline +:+ "max_log_files: -1".

Definition oneDocumentYAML : YAML :=
  {| yaml_Unmarshal := λ data c,
       if decide (data = negativeCapDocument)
       then Some (mkConfig (SourcePath c) (SourceIsFile c) (RemoteHost c) (RemotePath c)
                           (SSHKeyPath c) "0 3 * * *" (BandwidthLimit c) (ListenAddr c)
                           (LogDir c) (-1))
       else None |}.

Definition userSettings : Settings.TransferSettings :=
  Settings.mkTransferSettings "/mnt/data" true "user@host" "/backups" "~/.ssh/key".

(** Trimming of the ASCII white space, and the replacements of
    [template.HTMLEscapeString], as an instance of [GoLibrary]. *)
Definition isAsciiSpace (a : ascii) : bool :=
  bool_decide (a ∈ ["009"; "010"; "011"; "012"; "013"; " "]%char).

Fixpoint trimLeftSpace (s : string) : string :=
  match s with
  | EmptyString => EmptyString
  | String a r => if isAsciiSpace a then trimLeftSpace r else s
  end.

Fixpoint trimRightSpace (s : string) : string :=
  match s with
  | EmptyString => EmptyString
  | String a r =>
      match trimRightSpace r with
      | EmptyString => if isAsciiSpace a then EmptyString else String a EmptyString
      | t => String a t
      end
  end.

Fixpoint escapeHTML (s : string) : string :=
  match s with
  | EmptyString => EmptyString
  | String a r =>
      (if decide (a = "&"%char) then "&amp;"
       else if decide (a = "<"%char) then "&lt;"
       else if decide (a = ">"%char) then "&gt;"
       else if decide (a = "'"%char) then "&#39;"
       else if decide (a = ascii_of_nat 34) then "&#34;"
       else String a EmptyString)
      +:+ escapeHTML r
  end.

Definition asciiLibrary : GoLibrary :=
  {| strings_TrimSpace := λ s, trimRightSpace (trimLeftSpace s);
     template_HTMLEscapeString := escapeHTML |}.

(** The output of [ls -A ... | head -5] on a remote directory with two
    entries. *)
Definition twoRemoteFiles : string :=
  "movies" +:+ newline +:+ "shows <new>" +:+ newline.

(** * Properties *)

(** ** Byte strings *)

Section string_facts.
Import GoStrings.

Lemma append_cons a (s t : string) : String a s +:+ t = String a (s +:+ t).
Proof. reflexivity. Qed.

Lemma append_nil_l (s : string) : "" +:+ s = s.
Proof. reflexivity. Qed.

Lemma append_nil_r (s : string) : s +:+ "" = s.
Proof. induction s as [|a s IH]; [done|]. by rewrite append_cons, IH. Qed.

Lemma append_assoc (s t u : string) : (s +:+ t) +:+ u = s +:+ t +:+ u.
Proof. induction s as [|a s IH]; [done|]. by rewrite !append_cons, IH. Qed.

Lemma length_append (s t : string) :
  String.length (s +:+ t) = (String.length s + String.length t)%nat.
Proof. induction s as [|a s IH]; [done|]. rewrite append_cons. simpl. by rewrite IH. Qed.

Lemma append_inv_r (s1 s2 t1 t2 : string) :
  String.length t1 = String.length t2 → s1 +:+ t1 = s2 +:+ t2 → s1 = s2 ∧ t1 = t2.
Proof.
  revert s2. induction s1 as [|a s1 IH]; intros [|b s2] Hlen Heq.
  - done.
  - rewrite append_nil_l in Heq. subst t1. rewrite length_append in Hlen.
    simpl in Hlen. lia.
  - rewrite append_nil_l in Heq. subst t2. rewrite length_append in Hlen.
    simpl in Hlen. lia.
  - rewrite !append_cons in Heq. injection Heq as -> Heq.
    destruct (IH _ Hlen Heq) as [-> ->]. done.
Qed.

Lemma HasPrefix_spec (s p : string) :
  HasPrefix s p = true ↔ ∃ post, s = p +:+ post.
Proof.
  revert s. induction p as [|a p IH]; intros s.
  - destruct s; simpl; split; eauto.
  - destruct s as [|b s]; simpl.
    + split; [done|]. intros [post Hp]. done.
    + case_decide as Hab.
      * subst b. rewrite IH. split; intros [post Hp]; exists post.
        -- by rewrite append_cons, Hp.
        -- rewrite append_cons in Hp. by injection Hp.
      * split; [done|]. intros [post Hp]. rewrite append_cons in Hp.
        injection Hp as ? ?. done.
Qed.

Lemma Contains_spec (s sub : string) :
  Contains s sub = true ↔ ∃ pre post, s = pre +:+ sub +:+ post.
Proof.
  induction s as [|a s IH].
  - cbn [Contains]. rewrite orb_false_r, HasPrefix_spec. split.
    + intros [post Hp]. by exists "", post.
    + intros [[|b pre] [post Hp]]; [by exists post|done].
  - cbn [Contains]. rewrite orb_true_iff, HasPrefix_spec, IH. split.
    + intros [[post Hp]|(pre & post & Hp)].
      * by exists "", post.
      * exists (String a pre), post. by rewrite append_cons, Hp.
    + intros ([|b pre] & post & Hp).
      * left. by exists post.
      * right. rewrite append_cons in Hp. injection Hp as -> Hp. by exists pre, post.
Qed.

Lemma drop_bytes_append (s t : string) : drop_bytes (String.length s) (s +:+ t) = t.
Proof. induction s as [|a s IH]; [by destruct t|]. by rewrite append_cons. Qed.

Lemma drop_bytes_split (n : nat) (s : string) :
  (n ≤ String.length s)%nat →
  ∃ pre, s = pre +:+ drop_bytes n s ∧ String.length pre = n.
Proof.
  revert s. induction n as [|n IH]; intros s Hn.
  - exists "". by destruct s.
  - destruct s as [|a s]; simpl in Hn; [lia|].
    destruct (IH s) as (pre & Hs & Hl); [lia|].
    exists (String a pre). simpl. rewrite append_cons, <- Hs. by rewrite Hl.
Qed.

Lemma HasSuffix_spec (s suf : string) :
  HasSuffix s suf = true ↔ ∃ pre, s = pre +:+ suf.
Proof.
  unfold HasSuffix. rewrite andb_true_iff, !bool_decide_eq_true. split.
  - intros [Hlen Hd]. destruct (drop_bytes_split (String.length s - String.length suf) s)
      as (pre & Hs & _); [lia|]. exists pre. congruence.
  - intros [pre ->]. rewrite length_append. split; [lia|].
    replace (String.length pre + String.length suf - String.length suf)%nat
      with (String.length pre) by lia.
    apply drop_bytes_append.
Qed.

Lemma HasSuffix_false (s suf : string) :
  HasSuffix s suf = false ↔ ∀ pre, s ≠ pre +:+ suf.
Proof.
  rewrite <- not_true_iff_false, HasSuffix_spec. split.
  - intros Hn pre Hp. apply Hn. by exists pre.
  - intros Hn [pre Hp]. by eapply Hn.
Qed.

(** [TrimRight s "/"] is [s] without its trailing slashes. *)
Lemma TrimRight_slash (s : string) :
  (∃ n, s = TrimRight s "/" +:+ Repeat "/" n)
  ∧ HasSuffix (TrimRight s "/") "/" = false.
Proof.
  induction s as [|a s [[n Hn] Hs]].
  - split; [by exists 0%nat|done].
  - cbn [TrimRight]. destruct (TrimRight s "/") as [|b t] eqn:Ht.
    + cbn [has_byte]. case_decide as Ha.
      * subst a. split; [|done]. exists (S n). rewrite append_nil_l in *.
        cbn [Repeat]. by rewrite <- Hn.
      * split.
        -- exists n. rewrite append_cons. by rewrite Hn at 1.
        -- apply HasSuffix_false. intros [|c [|d pre]] Hp; cbv in Hp; by simplify_eq.
    + split.
      * exists n. rewrite append_cons. by rewrite Hn at 1.
      * apply HasSuffix_false. intros [|c pre] Hp.
        -- done.
        -- rewrite append_cons in Hp. injection Hp as -> Hp.
           rewrite HasSuffix_false in Hs. by eapply Hs.
Qed.

Lemma one_trailing_slash (t : string) :
  HasSuffix t "/" = false →
  HasSuffix (t +:+ "/") "/" = true ∧ HasSuffix (t +:+ "/") "//" = false.
Proof.
  intros Ht. split.
  - apply HasSuffix_spec. by exists t.
  - apply HasSuffix_false. intros pre Hp.
    change "//" with ("/" +:+ "/") in Hp. rewrite <- append_assoc in Hp.
    apply append_inv_r in Hp as [-> _]; [|done].
    rewrite HasSuffix_false in Ht. by eapply Ht.
Qed.

Lemma drop_bytes_append_add (k : nat) (h x : string) :
  drop_bytes (String.length h + k) (h +:+ x) = drop_bytes k x.
Proof. induction h as [|a h IH]; [done|]. by rewrite append_cons. Qed.

(** A suffix that fits in the right part is a suffix of the right part. *)
Lemma HasSuffix_append_r (h x suf : string) :
  (String.length suf ≤ String.length x)%nat →
  HasSuffix (h +:+ x) suf = HasSuffix x suf.
Proof.
  intros Hlen. unfold HasSuffix. rewrite length_append.
  replace (String.length h + String.length x - String.length suf)%nat
    with (String.length h + (String.length x - String.length suf))%nat by lia.
  rewrite drop_bytes_append_add.
  rewrite (bool_decide_eq_true_2 (String.length suf ≤ String.length x)%nat) by done.
  rewrite bool_decide_eq_true_2 by lia. done.
Qed.

End string_facts.

(** ** The contract holds for the codec [wireJSON] *)

Module WireFacts.
Import Wire.

Lemma get_put_nat (n : nat) (k : string) : get_nat (put_nat n +:+ k) = Some (n, k).
Proof.
  unfold put_nat. rewrite append_assoc. induction n as [|n IH]; [done|].
  cbn [GoStrings.Repeat]. rewrite append_assoc.
  change ("1" +:+ ?x) with (String "1" x). cbn [get_nat]. by rewrite IH.
Qed.

Lemma split_at_append (s k : string) : split_at (String.length s) (s +:+ k) = Some (s, k).
Proof.
  induction s as [|a s IH]; [done|].
  rewrite append_cons. cbn [String.length split_at]. by rewrite IH.
Qed.

Lemma get_put_string (s k : string) : get_string (put_string s +:+ k) = Some (s, k).
Proof.
  unfold get_string, put_string. rewrite append_assoc, get_put_nat. cbn.
  apply split_at_append.
Qed.

Lemma get_put_Z (z : Z) (k : string) : get_Z (put_Z z +:+ k) = Some (z, k).
Proof.
  unfold get_Z, put_Z. rewrite get_put_string. cbn. unfold itoa.
  rewrite NilZero.isi.
  - cbn. by rewrite DecimalZ.of_to.
  - destruct z; cbn; [done| |done]. intros [=Hn]. by apply DecimalPos.Unsigned.to_uint_nonnil in Hn.
  - destruct z; cbn; [done|done|]. intros [=Hn]. by apply DecimalPos.Unsigned.to_uint_nonnil in Hn.
Qed.

Lemma get_put_Time (t : Time) (k : string) : get_Time (put_Time t +:+ k) = Some (t, k).
Proof.
  unfold get_Time, put_Time. rewrite !append_assoc.
  repeat (rewrite get_put_Z; cbn [mbind option_bind]). by destruct t.
Qed.

Lemma get_put_run (r : BackupRun) (k : string) : get_run (put_run r +:+ k) = Some (r, k).
Proof.
  unfold get_run, put_run. rewrite !append_assoc.
  repeat (first [rewrite get_put_string | rewrite get_put_Time | rewrite get_put_Z];
          cbn [mbind option_bind]).
  by destruct r.
Qed.

Lemma get_put_items (runs : list BackupRun) (k : string) :
  get_items (length runs) (put_items runs +:+ k) = Some (runs, k).
Proof.
  induction runs as [|r runs IH]; [done|].
  cbn [length put_items get_items]. rewrite append_assoc, get_put_run.
  cbn [mbind option_bind]. rewrite IH. done.
Qed.

Lemma Unmarshal_put (runs : list BackupRun) :
  Unmarshal (put_nat (length runs) +:+ put_items runs) = Some runs.
Proof.
  unfold Unmarshal. rewrite get_put_nat. cbn [mbind option_bind].
  rewrite <- (append_nil_r (put_items runs)), get_put_items. done.
Qed.
End WireFacts.

#[global] Instance wire_roundtrip : @JSONRoundTrip wireJSON.
Proof. intros runs data [= <-]. apply WireFacts.Unmarshal_put. Qed.

(** ** Outcome classification *)

Lemma rsyncExitSummary_generic (code : Z) :
  code ∉ knownExitCodes →
  rsyncExitSummary code = "rsync error (exit code " +:+ itoa code +:+ ")".
Proof.
  intros Hn. destruct code as [|q|q]; [done| |done].
  do 8 (try destruct q as [q|q|]); try reflexivity;
    exfalso; apply Hn; unfold knownExitCodes; set_solver.
Qed.

Lemma finishStatus_failed (code : Z) :
  code ≠ 0 → code ≠ 23 → code ≠ 24 → finishStatus code = StatusFailed.
Proof.
  intros H0 H23 H24. unfold finishStatus, isPartialTransfer.
  destruct (Z.eqb_spec code 0); [done|].
  destruct (Z.eqb_spec code 23); [done|].
  destruct (Z.eqb_spec code 24); [done|]. done.
Qed.

Section completion.
Context `{JSON}.

(** A finished run is the head of the history, with the data handed to
    [finishRun], and its status is the status of the executor. *)
Lemma finishRun_records p exitCode summary now ok w run :
  heap w !! p = Some run →
  let w' := finishRun p exitCode summary now ok w in
  ∃ r, LastRun w' = Some r
       ∧ heap w' !! p = Some r
       ∧ ID r = ID run ∧ StartTime r = StartTime run ∧ LogFile r = LogFile run
       ∧ EndTime r = now
       ∧ ExitCode r = exitCode ∧ Summary r = summary
       ∧ Status r = finishStatus exitCode
       ∧ status (ex w') = finishStatus exitCode
       ∧ current (ex w') = None
       ∧ invoked w' = invoked w.
Proof.
  intros Hp. unfold finishRun. rewrite Hp. cbn zeta.
  eexists. split.
  { unfold LastRun. cbn [ex history]. case_bool_decide; reflexivity. }
  split.
  { cbn [heap]. apply list_lookup_insert_eq. by eapply lookup_lt_Some. }
  by repeat split.
Qed.

(** [execute] with a transcript file: the child is run once, then
    [finishRun] receives the outcome of [exitOutcome]. *)
Lemma execute_records p logPath o w w' run :
  heap w !! p = Some run →
  createOk o = true →
  execute p logPath o w = Some w' →
  ∃ r, LastRun w' = Some r
       ∧ ExitCode r = (exitOutcome (cmdResult o)).1
       ∧ Summary r = (exitOutcome (cmdResult o)).2
       ∧ Status r = finishStatus (ExitCode r)
       ∧ status (ex w') = finishStatus (ExitCode r)
       ∧ invoked w' = invoked w ++ [("rsync", buildRsyncArgs (cfg (ex w)))].
Proof.
  intros Hp Hc. unfold execute. rewrite Hc, Hp. cbn [negb].
  destruct (exitOutcome (cmdResult o)) as [exitCode summary] eqn:Ho.
  match goal with
  | |- context [finishRun p exitCode summary ?t ?k ?w1] =>
      destruct (finishRun_records p exitCode summary t k w1 run Hp)
        as (r & Hl & _ & _ & _ & _ & _ & He & Hs & Hst & Hx & _ & Hi);
      set (w2 := finishRun p exitCode summary t k w1) in *
  end.
  destruct (pruneOldLogs _ _ _ _) as [d|]; [|done].
  intros [= <-]. exists r. cbn [fst snd]. rewrite He.
  by repeat split.
Qed.
End completion.

(** C3. Run completion classifies exit codes: a child that exits normally
    gives code 0, Success and "completed successfully"; 23 and 24 give
    Warning with their partial-transfer summaries; 255 gives Failed with
    the SSH summary; a child that could not be run counts as code 1;
    every other non-zero code gives Failed, with the
    summary of the code for the known codes and the generic
    "rsync error (exit code N)" for all others; and the record of the run
    carries that code, tier and summary. *)
Theorem C3_exit_code_classification (code : Z) :
  (exitOutcome None = (0, "completed successfully") ∧ finishStatus 0 = StatusSuccess)
  ∧ (finishStatus 23 = StatusWarning
     ∧ rsyncExitSummary 23 = "partial transfer — some files could not be transferred")
  ∧ (finishStatus 24 = StatusWarning
     ∧ rsyncExitSummary 24 = "partial transfer — some source files vanished during sync")
  ∧ (finishStatus 255 = StatusFailed
     ∧ rsyncExitSummary 255
       = "SSH connection failed — remote host unreachable or auth denied")
  ∧ exitOutcome (Some (ExitError code)) = (code, rsyncExitSummary code)
  ∧ (∀ msg, exitOutcome (Some (OtherError msg)) = (1, "syntax or usage error")
            ∧ finishStatus 1 = StatusFailed)
  ∧ (code ≠ 0 → code ≠ 23 → code ≠ 24 → finishStatus code = StatusFailed)
  ∧ (rsyncExitSummary <$> [1; 2; 3; 5; 10; 11; 12; 14; 20; 25; 30; 35]
     = [ "syntax or usage error"; "protocol incompatibility";
         "errors selecting input/output files";
         "error starting client-server protocol"; "error in socket I/O";
         "error in file I/O"; "error in rsync protocol data stream";
         "error in IPC code"; "interrupted by signal";
         "max-delete limit reached"; "timeout in data send/receive";
         "timeout waiting for daemon connection" ])
  ∧ (code ∉ knownExitCodes →
     rsyncExitSummary code = "rsync error (exit code " +:+ itoa code +:+ ")")
  ∧ (∀ (J : JSON) p logPath o w w' run,
       heap w !! p = Some run → createOk o = true →
       execute p logPath o w = Some w' →
       ∃ r, LastRun w' = Some r
            ∧ ExitCode r = (exitOutcome (cmdResult o)).1
            ∧ Summary r = (exitOutcome (cmdResult o)).2
            ∧ Status r = finishStatus (ExitCode r)
            ∧ BackupExecutor_Status w' = Status r).
Proof.
  repeat split; try reflexivity.
  - apply finishStatus_failed.
  - apply rsyncExitSummary_generic.
  - intros J p logPath o w w' run Hp Hc He.
    destruct (execute_records p logPath o w w' run Hp Hc He)
      as (r & Hl & Hx & Hs & Hst & Hex & _).
    exists r. unfold BackupExecutor_Status. rewrite Hst. by repeat split.
Qed.

(** ** The rsync argument vector *)

(** C6. The argument vector is the fixed flags ([-avz], [--delete],
    [--partial], [--stats], [-e] and the ssh command with the key path and
    the relaxed host-key options), then [--bwlimit=N] exactly when the
    configured limit is positive, then source and destination. A file
    source is passed verbatim; a directory source is the configured path
    without its trailing slashes plus one slash, so it ends in one slash
    and never in two; the destination is the host, a colon, and the remote
    path without its trailing slashes plus one slash. *)
Theorem C6_rsync_argument_vector (c : Config) :
  let fixed :=
    [ "-avz"; "--delete"; "--partial"; "--stats"; "-e";
      "ssh -i " +:+ SSHKeyPath c
        +:+ " -o StrictHostKeyChecking=no -o UserKnownHostsFile=/dev/null" ] in
  let limit := if bool_decide (0 < BandwidthLimit c)
               then [ "--bwlimit=" +:+ itoa (BandwidthLimit c) ] else [] in
  let srcDir := GoStrings.TrimRight (SourcePath c) "/" in
  let dstDir := GoStrings.TrimRight (RemotePath c) "/" in
  let source := if SourceIsFile c then SourcePath c else srcDir +:+ "/" in
  let dest := RemoteHost c +:+ ":" +:+ dstDir +:+ "/" in
  buildRsyncArgs c = fixed ++ limit ++ [source; dest]
  ∧ existsb (λ a, GoStrings.HasPrefix a "--bwlimit")
      (take (length (buildRsyncArgs c) - 2) (buildRsyncArgs c))
    = bool_decide (0 < BandwidthLimit c)
  ∧ ((∃ n, SourcePath c = srcDir +:+ GoStrings.Repeat "/" n)
     ∧ GoStrings.HasSuffix srcDir "/" = false
     ∧ GoStrings.HasSuffix (srcDir +:+ "/") "/" = true
     ∧ GoStrings.HasSuffix (srcDir +:+ "/") "//" = false)
  ∧ ((∃ n, RemotePath c = dstDir +:+ GoStrings.Repeat "/" n)
     ∧ GoStrings.HasSuffix dstDir "/" = false
     ∧ GoStrings.HasSuffix dest "/" = true
     ∧ GoStrings.HasSuffix dest "//" = false).
Proof.
  intros fixed limit srcDir dstDir source dest.
  assert (Hargs : buildRsyncArgs c = fixed ++ limit ++ [source; dest]).
  { unfold buildRsyncArgs, limit. destruct (Z.ltb_spec 0 (BandwidthLimit c)).
    - rewrite bool_decide_eq_true_2 by done. by rewrite <- app_assoc.
    - rewrite bool_decide_eq_false_2 by lia. done. }
  split; [exact Hargs|]. split.
  { rewrite Hargs. unfold limit, fixed. case_bool_decide; reflexivity. }
  destruct (TrimRight_slash (SourcePath c)) as [Hs1 Hs2].
  destruct (TrimRight_slash (RemotePath c)) as [Hd1 Hd2].
  destruct (one_trailing_slash _ Hs2) as [Hs3 Hs4].
  destruct (one_trailing_slash _ Hd2) as [Hd3 Hd4].
  split; [done|]. split; [done|]. split; [done|]. split.
  - apply HasSuffix_spec. exists (RemoteHost c +:+ ":" +:+ dstDir).
    unfold dest. by rewrite !append_assoc.
  - unfold dest, dstDir in *. rewrite <- append_assoc.
    destruct (GoStrings.TrimRight (RemotePath c) "/") as [|b t].
    + apply HasSuffix_false. intros pre Hp. rewrite append_nil_l in Hp.
      change "//" with ("/" +:+ "/") in Hp. rewrite <- !append_assoc in Hp.
      apply append_inv_r in Hp as [Hp _]; [|done].
      apply append_inv_r in Hp as [_ Hp]; [|done]. done.
    + rewrite HasSuffix_append_r; [done|].
      rewrite append_cons. cbn [String.length]. rewrite length_append.
      cbn [String.length]. lia.
Qed.

Example args_directory_source :
  buildRsyncArgs (mkConfig "/a/b" false "user@h" "/backups/x/" "/k" "" 0 "" "logs" 3)
  = [ "-avz"; "--delete"; "--partial"; "--stats"; "-e";
      "ssh -i /k -o StrictHostKeyChecking=no -o UserKnownHostsFile=/dev/null";
      "/a/b/"; "user@h:/backups/x/" ].
Proof. reflexivity. Qed.

Example args_directory_source_slash :
  buildRsyncArgs (mkConfig "/a/b///" false "user@h" "/backups/x" "/k" "" 800 "" "logs" 3)
  = [ "-avz"; "--delete"; "--partial"; "--stats"; "-e";
      "ssh -i /k -o StrictHostKeyChecking=no -o UserKnownHostsFile=/dev/null";
      "--bwlimit=800"; "/a/b/"; "user@h:/backups/x/" ].
Proof. reflexivity. Qed.

Example args_file_source :
  buildRsyncArgs (mkConfig "/a/b/file.tar" true "user@h" "/backups/x/" "/k" "" (-1) "" "logs" 3)
  = [ "-avz"; "--delete"; "--partial"; "--stats"; "-e";
      "ssh -i /k -o StrictHostKeyChecking=no -o UserKnownHostsFile=/dev/null";
      "/a/b/file.tar"; "user@h:/backups/x/" ].
Proof. reflexivity. Qed.

(** ** Transcript lookup *)

(** C7. A file name in which a slash, a backslash or two consecutive dots
    occur is refused with "invalid log filename" and nothing is read; for
    any other name exactly the entry of that name in the log directory is
    read, and its content is the result when it is a regular file. *)
Theorem C7_read_log_filename_filter `{JSON} (w : World) (filename : string) :
  ((occurs_in "/" filename ∨ occurs_in "\" filename ∨ occurs_in ".." filename) →
   ReadLog w filename = (("", Some (errorString "invalid log filename")), []))
  ∧ (¬ (occurs_in "/" filename ∨ occurs_in "\" filename ∨ occurs_in ".." filename) →
     (ReadLog w filename).2 = [filename]
     ∧ (ReadLog w filename).1
       = match logdir w !! filename with
         | Some (File data) => (data, None)
         | _ => ("", Some (PathError "open" filename))
         end).
Proof.
  unfold occurs_in, ReadLog. rewrite <- !Contains_spec. split.
  - intros Hbad.
    destruct (GoStrings.Contains filename "/"); [done|].
    destruct (GoStrings.Contains filename "\"); [done|].
    destruct (GoStrings.Contains filename ".."); [done|].
    by destruct Hbad as [?|[?|?]].
  - intros Hok.
    destruct (GoStrings.Contains filename "/"); [exfalso; auto|].
    destruct (GoStrings.Contains filename "\"); [exfalso; auto|].
    destruct (GoStrings.Contains filename ".."); [exfalso; auto|].
    cbn [orb]. unfold os_ReadFile.
    destruct (logdir w !! filename) as [[data|]|]; done.
Qed.

Example read_log_rejects_traversal `{JSON} (w : World) :
  (ReadLog w "../../etc/passwd").1.2 = Some (errorString "invalid log filename")
  ∧ (ReadLog w "a/../../b").1.2 = Some (errorString "invalid log filename")
  ∧ (ReadLog w "backup\..\..\windows").1.2 = Some (errorString "invalid log filename").
Proof. done. Qed.

(** ** Starting a run *)

(** C2. While the status is Running, [Run] returns the error
    "backup already in progress" and changes nothing. Otherwise it returns
    no error, sets the status to Running and publishes as current run a
    newly allocated record with status Running, the id made from the clock
    reading, the start time, and the transcript name [backup-<id>.log];
    history and log directory are as before, and one goroutine is
    started for that record. *)
Theorem C2_run_single_flight `{JSON} (now1 now2 : Time) (w : World) :
  let run := mkBackupRun (FormatStamp now1) now2 zeroTime "" StatusRunning 0
               ("backup-" +:+ FormatStamp now1 +:+ ".log") "" in
  let p := length (heap w) in
  let '(err, w') := Run now1 now2 w in
  if bool_decide (BackupExecutor_Status w = StatusRunning)
  then err = Some (errorString "backup already in progress") ∧ w' = w
  else err = None
       ∧ BackupExecutor_Status w' = StatusRunning
       ∧ current (ex w') = Some p ∧ heap w !! p = None
       ∧ Current w' = Some run
       ∧ (∀ q, (q < p)%nat → heap w' !! q = heap w !! q)
       ∧ History w' = History w
       ∧ cfg (ex w') = cfg (ex w)
       ∧ logdir w' = logdir w ∧ invoked w' = invoked w
       ∧ goroutines w' = goroutines w
       ∧ pending w' = pending w ++ [(p, LogFile run)].
Proof.
  unfold Run, BackupExecutor_Status, Current, History. case_bool_decide as Hs; cbn.
  - done.
  - repeat split.
    + apply lookup_ge_None_2. lia.
    + by rewrite lookup_app_r, Nat.sub_diag.
    + intros q Hq. by rewrite lookup_app_l.
Qed.

(** ** A run whose transcript cannot be created *)

(** C9. When [os.Create] fails, [execute] ends in [finishRun] with exit
    code 1 and the summary "failed to create log file": the record and
    the executor get status Failed, the record becomes the head of the
    history, no run is current any more, and no command is run. *)
Theorem C9_create_failure_is_recorded `{JSON}
    (p : nat) (logPath : string) (o : ExecOracle) (w : World) (run : BackupRun) :
  heap w !! p = Some run →
  createOk o = false →
  ∃ w' r,
    execute p logPath o w = Some w'
    ∧ w' = finishRun p 1 "failed to create log file" (finishTime o) (historyWritten o) w
    ∧ LastRun w' = Some r
    ∧ History w' = take 100 (r :: History w)
    ∧ ID r = ID run ∧ LogFile r = LogFile run ∧ StartTime r = StartTime run
    ∧ ExitCode r = 1 ∧ Summary r = "failed to create log file"
    ∧ Status r = StatusFailed
    ∧ BackupExecutor_Status w' = StatusFailed
    ∧ Current w' = None
    ∧ invoked w' = invoked w.
Proof.
  intros Hp Hc. unfold execute. rewrite Hc. cbn [negb].
  destruct (finishRun_records p 1 "failed to create log file"
              (finishTime o) (historyWritten o) w run Hp)
    as (r & Hl & Hh & Hid & Hst & Hlf & He & Hx & Hs & Hstat & Hex & Hcur & Hinv).
  eexists _, r. split; [reflexivity|]. split; [reflexivity|].
  split; [exact Hl|]. split.
  { revert Hl. unfold finishRun, LastRun, History. rewrite Hp. cbn.
    case_bool_decide as Hlen; cbn; intros [= <-]; [done|].
    rewrite take_ge; [done|]. cbn in *. lia. }
  unfold BackupExecutor_Status, Current. rewrite Hcur, Hex.
  by repeat split.
Qed.

(** ** What one event does to the executor *)

Lemma finishStatus_not_running (code : Z) : finishStatus code ≠ StatusRunning.
Proof.
  unfold finishStatus. destruct (code =? 0); [done|].
  destruct (isPartialTransfer code); done.
Qed.

Section events.
Context `{JSON}.

Lemma finishRun_effect p exitCode summary now res w :
  effect w (finishRun p exitCode summary now res w).
Proof.
  unfold finishRun. destruct (heap w !! p) as [run|] eqn:Hp.
  - eapply (effect_finished _ _ p run exitCode summary now); [done| |done].
    cbn [ex]. f_equal. case_bool_decide as Hlen; [done|].
    rewrite take_ge; [done|]. cbn [length] in *. lia.
  - by apply effect_none.
Qed.

(** A step of a goroutine leaves the lists of goroutines, the size of
    the heap and the configuration as they are. *)
Lemma goroutine_step_frame g o w w' stage :
  goroutine_step g o w = Some (w', stage) →
  pending w' = pending w ∧ goroutines w' = goroutines w
  ∧ length (heap w') = length (heap w) ∧ cfg (ex w') = cfg (ex w).
Proof.
  destruct g as [p lp st]. unfold goroutine_step. cbn [goRun goLogPath goStage].
  destruct st as [| | |code summary|code summary created| |[|name rest]|].
  - destruct (heap w !! p); [|done]. by intros [= <- <-].
  - by intros [= <- <-].
  - destruct (exitOutcome (cmdResult o)). by intros [= <- <-].
  - by intros [= <- <-].
  - intros [= <- <-]. unfold finishRun. destruct (heap w !! p); [|done].
    cbn. by rewrite length_insert.
  - destruct (toRemove _ _ _); [|done]. by intros [= <- <-].
  - by intros [= <- <-].
  - by intros [= <- <-].
  - done.
Qed.

Lemma goroutine_step_effect g o w w' stage :
  goroutine_step g o w = Some (w', stage) → effect w w'.
Proof.
  destruct g as [p lp st]. unfold goroutine_step. cbn [goRun goLogPath goStage].
  destruct st as [| | |code summary|code summary created| |[|name rest]|].
  - destruct (heap w !! p); [|done]. intros [= <- <-]. by apply effect_none.
  - intros [= <- <-]. by apply effect_none.
  - destruct (exitOutcome (cmdResult o)). intros [= <- <-]. by apply effect_none.
  - intros [= <- <-]. by apply effect_none.
  - intros [= <- <-]. apply finishRun_effect.
  - destruct (toRemove _ _ _); [|done]. intros [= <- <-]. by apply effect_none.
  - intros [= <- <-]. by apply effect_none.
  - intros [= <- <-]. by apply effect_none.
  - done.
Qed.

(** Only the call of [finishRun] changes executor and heap. *)
Lemma goroutine_step_quiet g o w w' stage :
  goroutine_step g o w = Some (w', stage) →
  (∀ exitCode summary created, goStage g ≠ FinishRun exitCode summary created) →
  ex w' = ex w ∧ heap w' = heap w.
Proof.
  destruct g as [p lp st]. unfold goroutine_step. cbn [goRun goLogPath goStage].
  destruct st as [| | |code summary|code summary created| |[|name rest]|].
  - destruct (heap w !! p); [|done]. by intros [= <- <-].
  - by intros [= <- <-].
  - destruct (exitOutcome (cmdResult o)). by intros [= <- <-].
  - by intros [= <- <-].
  - intros _ Hn. by destruct (Hn code summary created).
  - destruct (toRemove _ _ _); [|done]. by intros [= <- <-].
  - by intros [= <- <-].
  - by intros [= <- <-].
  - done.
Qed.

Lemma handle_effect ev w w' : handle ev w = Some w' → effect w w'.
Proof.
  destruct ev as [now1 now2|i o|j o| | | | |f]; cbn [handle];
    try (intros [= <-]; by apply effect_none).
  - intros [= <-]. unfold Run. case_bool_decide as Hs; cbn [snd].
    + by apply effect_none.
    + by eapply (effect_started _ _ now1 now2).
  - destruct (pending w !! i) as [[p logPath]|]; [|done]. intros [= <-].
    by apply effect_none.
  - destruct (goroutines w !! j) as [g|]; [|done].
    destruct (goroutine_step g o w) as [[w1 stage]|] eqn:Hstep; [|done].
    intros [= <-]. apply goroutine_step_effect in Hstep.
    destruct Hstep as [He Hh|n1 n2 Hs He Hh|q r c s n Hq He Hh]; cbn [ex heap] in *.
    + by apply effect_none.
    + by eapply effect_started.
    + by eapply effect_finished.
Qed.

(** Induction along a trace. *)
Lemma run_trace_invariant (P : World → Prop) :
  (∀ ev w w', P w → handle ev w = Some w' → P w') →
  ∀ evs w w', P w → run_trace evs w = Some w' → P w'.
Proof.
  intros Hstep evs. induction evs as [|ev evs IH]; intros w w' HP Hrun.
  - by injection Hrun as <-.
  - cbn [run_trace] in Hrun. destruct (handle ev w) as [w1|] eqn:Hev; [|done].
    eauto.
Qed.

(** [loadHistory] installs what the file decodes to, and nothing else. *)
Lemma NewBackupExecutor_cases (c : Config) (d : gmap string Node) :
  let e := NewBackupExecutor c d in
  cfg e = c ∧ current e = None
  ∧ ((history e = [] ∧ status e = StatusIdle)
     ∨ (∃ data r runs, os_ReadFile d historyPath = Some data
          ∧ json_Unmarshal data = Some (r :: runs)
          ∧ history e = r :: runs ∧ status e = Status r)).
Proof.
  unfold NewBackupExecutor, loadHistory.
  destruct (os_ReadFile d historyPath) as [data|]; [|by auto].
  destruct (json_Unmarshal data) as [[|r runs]|] eqn:Hd; cbn; [by auto| |by auto].
  split; [done|]. split; [done|]. right. by exists data, r, runs.
Qed.

(** *** Every enabled event succeeds

    Every goroutine holds a live pointer; with a non-negative retention
    cap each of its steps returns, so the only events that have no
    successor are those of goroutines that do not exist or have returned. *)

Lemma pruneOldLogs_succeeds (c : Config) readOk rmOk (d : gmap string Node) :
  0 ≤ MaxLogFiles c → is_Some (pruneOldLogs c readOk rmOk d).
Proof.
  intros Hmax. unfold pruneOldLogs. destruct readOk; cbn [negb]; [|done].
  case_bool_decide; [done|]. by rewrite bool_decide_eq_false_2 by lia.
Qed.

(** [pruneOldLogs] is the removal, one by one, of the names of
    [toRemove]. *)
Lemma pruneOldLogs_toRemove (c : Config) readOk rmOk (d : gmap string Node) :
  pruneOldLogs c readOk rmOk d = removeAll rmOk d <$> toRemove c readOk d.
Proof.
  unfold pruneOldLogs, toRemove. destruct readOk; cbn [negb]; [|done].
  case_bool_decide; [done|]. case_bool_decide; [done|].
  cbn [fmap option_fmap option_map]. unfold removeAll. by rewrite foldl_fmap.
Qed.

Lemma toRemove_succeeds (c : Config) readOk (d : gmap string Node) :
  0 ≤ MaxLogFiles c → is_Some (toRemove c readOk d).
Proof.
  intros Hmax. unfold toRemove. destruct readOk; cbn [negb]; [|done].
  case_bool_decide; [done|]. by rewrite bool_decide_eq_false_2 by lia.
Qed.

Lemma finishRun_cfg p exitCode summary now res w :
  cfg (ex (finishRun p exitCode summary now res w)) = cfg (ex w).
Proof. unfold finishRun. by destruct (heap w !! p). Qed.

Lemma finishRun_pending p exitCode summary now res w :
  pending (finishRun p exitCode summary now res w) = pending w.
Proof. unfold finishRun. by destruct (heap w !! p). Qed.

Lemma finishRun_goroutines p exitCode summary now res w :
  goroutines (finishRun p exitCode summary now res w) = goroutines w.
Proof. unfold finishRun. by destruct (heap w !! p). Qed.

Lemma execute_succeeds p logPath o w :
  0 ≤ MaxLogFiles (cfg (ex w)) → (p < length (heap w))%nat →
  is_Some (execute p logPath o w).
Proof.
  intros Hmax Hp. unfold execute. destruct (createOk o); cbn [negb]; [|done].
  destruct (lookup_lt_is_Some_2 _ _ Hp) as [run ->].
  destruct (exitOutcome (cmdResult o)) as [exitCode summary].
  match goal with
  | |- context [pruneOldLogs ?c ?r ?k ?d] =>
      destruct (pruneOldLogs_succeeds c r k d) as [d' ->]; [|done]
  end.
  by rewrite finishRun_cfg.
Qed.

Lemma goroutine_step_succeeds g o w :
  0 ≤ MaxLogFiles (cfg (ex w)) → (goRun g < length (heap w))%nat →
  goStage g ≠ Done →
  is_Some (goroutine_step g o w).
Proof.
  intros Hmax Hp Hd. destruct g as [p lp st]. unfold goroutine_step.
  cbn [goRun goLogPath goStage] in *.
  destruct st as [| | |code summary|code summary created| |[|name rest]|]; try done.
  - by destruct (lookup_lt_is_Some_2 _ _ Hp) as [run ->].
  - by destruct (exitOutcome (cmdResult o)).
  - by destruct (toRemove_succeeds (cfg (ex w)) (readDirOk o) (logdir w) Hmax) as [names ->].
Qed.

Lemma handle_succeeds ev w :
  0 ≤ MaxLogFiles (cfg (ex w)) → runs_live w →
  (∀ i o, ev = GoStart i o → (i < length (pending w))%nat) →
  (∀ j o, ev = GoStep j o → ∃ g, goroutines w !! j = Some g ∧ goStage g ≠ Done) →
  is_Some (handle ev w).
Proof.
  intros Hmax [_ Hlive] Hstart Hstep.
  destruct ev as [now1 now2|i o|j o| | | | |f]; cbn [handle]; try done.
  - by destruct (lookup_lt_is_Some_2 _ _ (Hstart i o eq_refl)) as [[p logPath] ->].
  - destruct (Hstep j o eq_refl) as (g & Hj & Hd). rewrite Hj.
    destruct (goroutine_step_succeeds g o w Hmax) as [[w' stage] ->]; [|done..].
    eapply Hlive, list_elem_of_lookup_2, Hj.
Qed.

Lemma finishRun_heap_length p exitCode summary now res w :
  length (heap (finishRun p exitCode summary now res w)) = length (heap w).
Proof.
  unfold finishRun. destruct (heap w !! p); [|done]. cbn [heap]. apply length_insert.
Qed.

Lemma handle_heap_length ev w w' :
  handle ev w = Some w' → (length (heap w) ≤ length (heap w'))%nat.
Proof.
  intros Hev. apply handle_effect in Hev.
  destruct Hev as [He Hh|n1 n2 Hs He Hh|q r c s n Hq He Hh]; rewrite Hh.
  - done.
  - rewrite length_app. lia.
  - by rewrite length_insert.
Qed.

Lemma handle_keeps_cfg ev w w' : handle ev w = Some w' → cfg (ex w') = cfg (ex w).
Proof.
  intros Hev. apply handle_effect in Hev.
  by destruct Hev as [He Hh|n1 n2 Hs He Hh|q r c s n Hq He Hh]; rewrite He.
Qed.

Lemma runs_live_step ev w w' :
  runs_live w → handle ev w = Some w' → runs_live w'.
Proof.
  intros [Hpend Hgo] Hev. pose proof (handle_heap_length _ _ _ Hev) as Hlen.
  destruct ev as [now1 now2|i o|j o| | | | |f]; cbn [handle] in Hev;
    try (by injection Hev as <-).
  - injection Hev as <-. clear Hlen. unfold Run, runs_live.
    case_bool_decide; cbn [snd pending heap goroutines]; [done|].
    rewrite length_app. cbn [length]. split.
    + intros p logPath Hin. apply elem_of_app in Hin as [Hin|Hin].
      * apply Hpend in Hin. lia.
      * apply list_elem_of_singleton in Hin. injection Hin as -> _. lia.
    + intros g Hin. apply Hgo in Hin. lia.
  - destruct (pending w !! i) as [[q lp]|] eqn:Hi; [|done]. injection Hev as <-.
    unfold runs_live. cbn [pending heap goroutines] in *. split.
    + intros p logPath Hin. eapply Hpend, list_elem_of_delete_inv, Hin.
    + intros g Hin. apply elem_of_app in Hin as [Hin|Hin]; [by apply Hgo|].
      apply list_elem_of_singleton in Hin. subst g. cbn.
      eapply Hpend, list_elem_of_lookup_2, Hi.
  - destruct (goroutines w !! j) as [g|] eqn:Hj; [|done].
    destruct (goroutine_step g o w) as [[w1 stage]|] eqn:Hstep; [|done].
    injection Hev as <-. unfold runs_live. cbn [pending heap goroutines] in *.
    destruct (goroutine_step_frame _ _ _ _ _ Hstep) as (Hp1 & Hg1 & Hh1 & _).
    rewrite Hp1, Hg1. split.
    + intros p logPath Hin. apply Hpend in Hin. lia.
    + intros g' Hin. apply list_elem_of_lookup in Hin as [k Hk].
      destruct (decide (k = j)) as [->|Hne].
      * rewrite list_lookup_insert_eq in Hk by by eapply lookup_lt_Some.
        injection Hk as <-. cbn.
        apply list_elem_of_lookup_2 in Hj. apply Hgo in Hj. lia.
      * rewrite list_lookup_insert_ne in Hk by done.
        apply list_elem_of_lookup_2 in Hk. apply Hgo in Hk. lia.
Qed.

Lemma boot_runs_live (c : Config) (d : gmap string Node) : runs_live (boot c d).
Proof. split; [intros p logPath Hin|intros g Hin]; by apply elem_of_nil in Hin. Qed.

Lemma reachable_runs_live (c : Config) (d : gmap string Node) evs w :
  run_trace evs (boot c d) = Some w → runs_live w.
Proof.
  apply (run_trace_invariant runs_live); [|apply boot_runs_live].
  intros ev w0 w1. apply runs_live_step.
Qed.

(** *** The single-flight invariant *)

Lemma single_flight_step ev w w' :
  single_flight w → handle ev w = Some w' → single_flight w'.
Proof.
  intros Hw Hev. apply handle_effect in Hev. unfold single_flight in *.
  destruct Hev as [He Hh|n1 n2 Hs He Hh|q r c s n Hq He Hh]; rewrite He, Hh; cbn.
  - done.
  - rewrite length_app. cbn. split; [lia|done].
  - apply finishStatus_not_running.
Qed.

Lemma single_flight_observed w :
  single_flight w → (Current w ≠ None ↔ BackupExecutor_Status w = StatusRunning).
Proof.
  unfold single_flight, Current, BackupExecutor_Status.
  destruct (current (ex w)) as [p|].
  - intros [Hp Hs]. split; [done|]. intros _.
    destruct (lookup_lt_is_Some_2 (heap w) p Hp) as [r ->]. done.
  - intros Hs. split; [done|]. intros ?. done.
Qed.
End events.

(** *** What a new executor finds after [saveHistory] *)

Lemma save_then_load `{JSONRoundTrip}
    (c : Config) (e : BackupExecutor) (d : gmap string Node) (data : string) :
  json_MarshalIndent (history e) = Some data →
  NewBackupExecutor c (saveHistory e WriteDone d)
  = mkExecutor c (match history e with r :: _ => Status r | [] => StatusIdle end)
               None (history e).
Proof.
  intros Hm. unfold NewBackupExecutor, loadHistory, saveHistory, os_WriteFile, os_ReadFile.
  rewrite Hm, lookup_insert_eq, (json_roundtrip _ _ Hm). by destruct (history e).
Qed.

(** The file written at the end of a run is read back as the history of
    that moment, headed by the finished record. *)
Lemma finishRun_persists `{JSONRoundTrip}
    (c : Config) p exitCode summary now w run data :
  heap w !! p = Some run →
  json_MarshalIndent (History (finishRun p exitCode summary now WriteDone w)) = Some data →
  let e := NewBackupExecutor c (logdir (finishRun p exitCode summary now WriteDone w)) in
  history e = History (finishRun p exitCode summary now WriteDone w)
  ∧ status e = finishStatus exitCode
  ∧ (length (history e) ≤ 100)%nat.
Proof.
  unfold History, finishRun. intros Hp. rewrite Hp. cbn [ex logdir history].
  set (hist := if bool_decide (100 < length (_ :: history (ex w)))%nat
               then take 100 (_ :: history (ex w)) else _ :: history (ex w)).
  intros Hm.
  rewrite (save_then_load c (mkExecutor (cfg (ex w)) (finishStatus exitCode) None hist)
             (logdir w) data Hm).
  cbn [history status]. split; [done|]. split.
  - unfold hist. by case_bool_decide.
  - unfold hist. case_bool_decide; [rewrite length_take|]; lia.
Qed.

(** C1, as stated, fails right after construction: the history file's
    newest record has status "running", so the aggregate status is
    Running while no run is current. *)
Lemma C1_counterexample :
  ∃ w, @run_trace wireJSON [] (@boot wireJSON exampleConfig staleHistoryDir) = Some w
       ∧ BackupExecutor_Status w = StatusRunning
       ∧ Current w = None
       ∧ ¬ (Current w ≠ None ↔ BackupExecutor_Status w = StatusRunning).
Proof.
  eexists. split; [reflexivity|]. split; [by vm_compute|]. split; [by vm_compute|].
  intros [_ Hn]. apply Hn; by vm_compute.
Qed.

(** C1 (amended). If the status seeded from the history file at
    construction is not Running, then after every sequence of events
    ([Run] calls, completions of started goroutines, reads) the current
    run is non-null exactly when the aggregate status is Running. The
    condition holds again for every file the executor writes: what
    [finishRun] persists is read back with the status of the finished
    run, which is never Running. *)
Theorem C1_current_iff_running `{JSON}
    (c : Config) (d : gmap string Node) (evs : list event) (w : World) :
  status (NewBackupExecutor c d) ≠ StatusRunning →
  run_trace evs (boot c d) = Some w →
  (Current w ≠ None ↔ BackupExecutor_Status w = StatusRunning)
  ∧ (JSONRoundTrip → ∀ p run exitCode summary now data,
       heap w !! p = Some run →
       json_MarshalIndent (History (finishRun p exitCode summary now WriteDone w)) = Some data →
       status (NewBackupExecutor c (logdir (finishRun p exitCode summary now WriteDone w)))
       ≠ StatusRunning).
Proof.
  intros Hseed Hrun. split.
  - apply single_flight_observed.
    eapply (run_trace_invariant single_flight); [apply single_flight_step| |exact Hrun].
    unfold single_flight, boot. cbn [ex].
    destruct (NewBackupExecutor_cases c d) as (_ & -> & _). exact Hseed.
  - intros Hrt p run exitCode summary now data Hp Hm.
    destruct (finishRun_persists c p exitCode summary now w run data Hp Hm) as (_ & -> & _).
    apply finishStatus_not_running.
Qed.
Lemma C1_witness :
  ∃ w, @run_trace wireJSON exampleTrace (@boot wireJSON exampleConfig ∅) = Some w
       ∧ (Current w ≠ None ↔ BackupExecutor_Status w = StatusRunning).
Proof.
  eexists. split; [vm_compute; reflexivity|].
  apply (@C1_current_iff_running wireJSON exampleConfig ∅ exampleTrace).
  - by vm_compute.
  - vm_compute. reflexivity.
Defined.

(** ** The bounded history *)

(** C4, as stated, fails for loading: a persisted file of 101 records
    gives a history of length 101. *)
Lemma C4_counterexample :
  length (History (@boot wireJSON exampleConfig longHistoryDir)) = 101%nat
  ∧ ¬ (length (History (@boot wireJSON exampleConfig longHistoryDir)) ≤ 100)%nat.
Proof.
  assert (Hl : length (History (@boot wireJSON exampleConfig longHistoryDir)) = 101%nat)
    by (vm_compute; reflexivity).
  split; [exact Hl|]. rewrite Hl. lia.
Qed.

Section bound.
Context `{JSON}.

(** [finishRun] puts the finished record in front of the history and
    keeps the first 100 entries, whatever the length of the history was. *)
Lemma finishRun_history p exitCode summary now res w run :
  heap w !! p = Some run →
  History (finishRun p exitCode summary now res w)
  = take 100 (finishedRecord run exitCode summary now :: History w).
Proof.
  intros Hp. unfold History, finishRun. rewrite Hp. cbn [ex history].
  case_bool_decide as Hlen; [done|].
  rewrite take_ge; [done|]. cbn [length] in *. lia.
Qed.

Lemma bounded_step ev w w' :
  (length (History w) ≤ 100)%nat → handle ev w = Some w' →
  (length (History w') ≤ 100)%nat.
Proof.
  intros Hlen Hev. apply handle_effect in Hev. unfold History in *.
  destruct Hev as [He Hh|n1 n2 Hs He Hh|q r c s n Hq He Hh]; rewrite He; cbn [history].
  - done.
  - done.
  - rewrite length_take. lia.
Qed.

(** An event that is not the call of [finishRun] leaves the history. *)
Lemma handle_quiet ev w w' :
  handle ev w = Some w' → ¬ completes ev w → History w' = History w.
Proof.
  intros Hev Hn. unfold History.
  destruct ev as [now1 now2|i o|j o| | | | |f]; cbn [handle] in Hev;
    try (by injection Hev as <-).
  - injection Hev as <-. unfold Run. by case_bool_decide.
  - destruct (pending w !! i) as [[p logPath]|]; [|done]. by injection Hev as <-.
  - destruct (goroutines w !! j) as [g|] eqn:Hj; [|done].
    destruct (goroutine_step g o w) as [[w1 stage]|] eqn:Hstep; [|done].
    injection Hev as <-. cbn [ex].
    apply goroutine_step_quiet in Hstep as [-> _]; [done|].
    intros exitCode summary created Hst. apply Hn.
    by exists j, o, g, exitCode, summary, created.
Qed.
End bound.

(** C4 (amended). In every state of a process, the call of [finishRun]
    by a goroutine puts the record of its run in front of the history
    and keeps the first 100 entries of the result, in their order: the
    record is the newest entry, only entries at the end are dropped, and
    from then on the history has at most 100 entries, whatever the
    history file held. Every other event leaves the history as it is.
    Loading installs the decoded sequence of the file unchanged, without
    truncation; if that sequence has at most 100 records, the history has
    at most 100 records in every state of the process. A file written by
    [finishRun] is read back with at most 100 records. *)
Theorem C4_history_bounded `{JSON}
    (c : Config) (d : gmap string Node) (evs : list event) (w : World) :
  run_trace evs (boot c d) = Some w →
  (∀ j o g exitCode summary created w',
     goroutines w !! j = Some g →
     goStage g = FinishRun exitCode summary created →
     handle (GoStep j o) w = Some w' →
     ∃ run, heap w !! goRun g = Some run
       ∧ LastRun w' = Some (finishedRecord run exitCode summary (finishTime o))
       ∧ History w'
         = take 100 (finishedRecord run exitCode summary (finishTime o) :: History w)
       ∧ (length (History w') ≤ 100)%nat
       ∧ (∀ evs' w'', run_trace evs' w' = Some w'' → (length (History w'') ≤ 100)%nat))
  ∧ (∀ ev w', handle ev w = Some w' → ¬ completes ev w → History w' = History w)
  ∧ (∀ data runs, os_ReadFile d historyPath = Some data →
       json_Unmarshal data = Some runs → History (boot c d) = runs)
  ∧ ((length (history (NewBackupExecutor c d)) ≤ 100)%nat →
     (length (History w) ≤ 100)%nat)
  ∧ (JSONRoundTrip → ∀ p run exitCode summary now data,
       heap w !! p = Some run →
       json_MarshalIndent (History (finishRun p exitCode summary now WriteDone w))
       = Some data →
       (length (history (NewBackupExecutor c
                  (logdir (finishRun p exitCode summary now WriteDone w)))) ≤ 100)%nat).
Proof.
  intros Hrun. split; [|split; [|split; [|split]]].
  - intros j o g exitCode summary created w' Hj Hst Hev.
    destruct (reachable_runs_live c d evs w Hrun) as [_ Hlive].
    destruct (lookup_lt_is_Some_2 (heap w) (goRun g)) as [run Hp].
    { eapply Hlive, list_elem_of_lookup_2, Hj. }
    exists run. split; [exact Hp|].
    assert (Hh : History w'
                 = take 100 (finishedRecord run exitCode summary (finishTime o)
                             :: History w)).
    { cbn [handle] in Hev. rewrite Hj in Hev. unfold goroutine_step in Hev.
      rewrite Hst in Hev. injection Hev as <-.
      apply (finishRun_history _ _ _ _ _ _ _ Hp). }
    assert (Hlen : (length (History w') ≤ 100)%nat).
    { rewrite Hh, length_take. lia. }
    split; [by unfold LastRun, History in *; rewrite Hh|].
    split; [exact Hh|]. split; [exact Hlen|].
    intros evs' w''.
    apply (run_trace_invariant (λ w, (length (History w) ≤ 100)%nat)); [|exact Hlen].
    intros ev w0 w1. apply bounded_step.
  - intros ev w'. apply handle_quiet.
  - intros data runs Hread Hdec. unfold History, boot, NewBackupExecutor, loadHistory.
    cbn [ex]. rewrite Hread, Hdec. by destruct runs.
  - intros Hseed. revert Hrun.
    apply (run_trace_invariant (λ w, (length (History w) ≤ 100)%nat)); [|done].
    intros ev w0 w1. apply bounded_step.
  - intros Hrt p run exitCode summary now data Hp Hm.
    by destruct (finishRun_persists c p exitCode summary now w run data Hp Hm) as (_ & _ & ?).
Qed.

(** A history file of 101 records: the history has 101 entries until the
    first run of the process completes, and 100 from then on. *)
Lemma C4_witness :
  let o := quickOracle None 3 in
  ∃ w w',
    @run_trace wireJSON
      (CallRun (clock 7 5 1 100) (clock 7 5 1 101) :: goroutineEvents 0 0 o 4)
      (@boot wireJSON exampleConfig longHistoryDir) = Some w
    ∧ length (History w) = 101%nat
    ∧ @handle wireJSON (GoStep 0 o) w = Some w'
    ∧ (length (History w') ≤ 100)%nat.
Proof.
  intros o.
  assert (Hfacts :
    (λ w, (length (History w), goroutines w))
      <$> @run_trace wireJSON
            (CallRun (clock 7 5 1 100) (clock 7 5 1 101) :: goroutineEvents 0 0 o 4)
            (@boot wireJSON exampleConfig longHistoryDir)
    = Some (101%nat, [mkGoroutine 0 "backup-20240309-070501.log"
                        (FinishRun 0 "completed successfully" true)]))
    by (vm_compute; reflexivity).
  destruct (@run_trace wireJSON
              (CallRun (clock 7 5 1 100) (clock 7 5 1 101) :: goroutineEvents 0 0 o 4)
              (@boot wireJSON exampleConfig longHistoryDir)) as [w|] eqn:Hrun;
    [|discriminate Hfacts].
  cbn [fmap option_fmap option_map] in Hfacts. injection Hfacts as Hlen Hg.
  destruct (@handle wireJSON (GoStep 0 o) w) as [w'|] eqn:Hev.
  - exists w, w'. split; [reflexivity|]. split; [exact Hlen|]. split; [exact Hev|].
    destruct (@C4_history_bounded wireJSON exampleConfig longHistoryDir _ w Hrun)
      as (Hfinish & _).
    destruct (Hfinish 0%nat o
                (mkGoroutine 0 "backup-20240309-070501.log"
                   (FinishRun 0 "completed successfully" true))
                0 "completed successfully" true w') as (run & _ & _ & _ & Hb & _).
    + by rewrite Hg.
    + reflexivity.
    + exact Hev.
    + exact Hb.
  - exfalso. cbn [handle] in Hev. rewrite Hg in Hev. cbn in Hev. done.
Defined.

(** ** Persistence *)

(** C5. A history that [saveHistory] encoded and wrote is read back by a
    new executor as the same sequence of records, and the status of the
    new executor is the status of the first (newest) record, Idle for an
    empty history; when the file is absent, or its content does not
    decode, the history is empty and the status is Idle. *)
Theorem C5_history_round_trip `{JSONRoundTrip}
    (c : Config) (e : BackupExecutor) (d : gmap string Node) (data : string) :
  json_MarshalIndent (history e) = Some data →
  let e' := NewBackupExecutor c (saveHistory e WriteDone d) in
  (history e' = history e
   ∧ status e' = match history e with r :: _ => Status r | [] => StatusIdle end
   ∧ current e' = None)
  ∧ (∀ d0, os_ReadFile d0 historyPath = None
           ∨ (∃ bad, os_ReadFile d0 historyPath = Some bad ∧ json_Unmarshal bad = None) →
       history (NewBackupExecutor c d0) = []
       ∧ status (NewBackupExecutor c d0) = StatusIdle
       ∧ current (NewBackupExecutor c d0) = None).
Proof.
  intros Hm e'. split.
  - unfold e'. by rewrite (save_then_load c e d data Hm).
  - intros d0 Hd0. unfold NewBackupExecutor, loadHistory.
    destruct Hd0 as [->|(bad & -> & ->)]; done.
Qed.

Lemma C5_witness :
  let e := mkExecutor exampleConfig StatusWarning None twoRuns in
  let e' := @NewBackupExecutor wireJSON exampleConfig (@saveHistory wireJSON e WriteDone ∅) in
  history e' = twoRuns ∧ status e' = StatusWarning.
Proof.
  intros e e'.
  destruct (@C5_history_round_trip wireJSON wire_roundtrip exampleConfig e ∅
              (Wire.put_nat 2 +:+ Wire.put_items twoRuns) eq_refl)
    as [(Hh & Hs & _) _].
  split; [exact Hh|exact Hs].
Defined.

Lemma C9_witness :
  let w := mkWorld (mkExecutor exampleConfig StatusRunning (Some 0%nat) [])
                   [startedRecord (clock 7 5 1 100) (clock 7 5 1 101)] [] [] ∅ [] in
  let o := mkOracle false None None "" None (clock 7 5 1 400) None (clock 7 5 1 500)
                    WriteDone true (λ _, true) in
  ∃ w', @execute wireJSON 0 "backup-20240309-070501.log" o w = Some w'
        ∧ BackupExecutor_Status w' = StatusFailed
        ∧ (Summary <$> LastRun w') = Some "failed to create log file"
        ∧ invoked w' = [].
Proof.
  intros w o.
  destruct (@C9_create_failure_is_recorded wireJSON 0 "backup-20240309-070501.log" o w
              (startedRecord (clock 7 5 1 100) (clock 7 5 1 101)) eq_refl eq_refl)
    as (w' & r & He & _ & Hl & _ & _ & _ & _ & _ & Hs & _ & Hst & _ & Hi).
  exists w'. rewrite Hl. cbn. rewrite Hs. by repeat split.
Defined.

(** ** Transcript retention *)

#[global] Instance entry_le_total : Total entry_le.
Proof. intros a b. unfold entry_le. apply String.le_total. Qed.

#[global] Instance entry_le_trans : Transitive entry_le.
Proof. intros a b c. unfold entry_le. apply transitivity. Qed.

Lemma elem_of_os_ReadDir (e : DirEntry) (d : gmap string Node) :
  e ∈ os_ReadDir d ↔ ∃ node, d !! Name e = Some node ∧ e = toDirEntry (Name e, node).
Proof.
  unfold os_ReadDir. rewrite merge_sort_Permutation, list_elem_of_fmap. split.
  - intros ([k node] & -> & Hin). apply elem_of_map_to_list in Hin. by exists node.
  - intros (node & Hl & He). exists (Name e, node). split; [done|].
    by apply elem_of_map_to_list.
Qed.

Lemma NoDup_os_ReadDir_names (d : gmap string Node) : NoDup (Name <$> os_ReadDir d).
Proof.
  unfold os_ReadDir. rewrite merge_sort_Permutation, <- list_fmap_compose.
  apply (NoDup_fst_map_to_list d).
Qed.

Lemma elem_of_logFiles (name : string) (d : gmap string Node) :
  name ∈ Name <$> filter isLogFile (os_ReadDir d) ↔ isTranscript d name.
Proof.
  rewrite list_elem_of_fmap. unfold isTranscript. split.
  - intros (e & -> & He). apply list_elem_of_filter in He as [Hlog He].
    apply elem_of_os_ReadDir in He as (node & Hl & He).
    unfold isLogFile in Hlog. rewrite He in Hlog. cbn in Hlog.
    apply Is_true_true in Hlog. rewrite !andb_true_iff in Hlog.
    destruct Hlog as [[Hdir Hp] Hs]. destruct node as [data|]; [|done].
    split; [by exists data|done].
  - intros ([data Hl] & Hp & Hs). exists (mkDirEntry name false). split; [done|].
    apply list_elem_of_filter. split.
    + unfold isLogFile. cbn. rewrite Hp, Hs. done.
    + apply elem_of_os_ReadDir. by exists (File data).
Qed.


Lemma removeAll_lookup (rmOk : string → bool) (names : list string)
    (d : gmap string Node) (name : string) :
  removeAll rmOk d names !! name
  = if bool_decide (name ∈ names) && rmOk name then None else d !! name.
Proof.
  unfold removeAll. revert d. induction names as [|k names IH]; intros d; [done|].
  cbn [foldl]. rewrite IH. unfold os_Remove.
  destruct (decide (name = k)) as [->|Hne].
  - rewrite (bool_decide_eq_true_2 (k ∈ k :: names)) by left.
    destruct (rmOk k) eqn:Hk; cbn.
    + rewrite lookup_delete_eq. by destruct (bool_decide _).
    + by rewrite andb_false_r.
  - assert (Hiff : bool_decide (name ∈ k :: names) = bool_decide (name ∈ names)).
    { apply bool_decide_ext. rewrite elem_of_cons. split; [|by right].
      by intros [?|?]. }
    rewrite Hiff. destruct (rmOk k); [|done]. by rewrite lookup_delete_ne.
Qed.

(** C8, as stated, fails for a negative maximum, which [validate] lets
    pass: the number of transcripts exceeds it, and pruning does not end
    with the directory of the claim but in a run-time panic. *)
Lemma C8_counterexample :
  validate negativeCapConfig = None
  ∧ MaxLogFiles negativeCapConfig = -1
  ∧ pruneOldLogs negativeCapConfig true (λ _, true) fiveRunsDir = None
  ∧ ¬ (∃ (removed kept : list string) (d' : gmap string Node),
         pruneOldLogs negativeCapConfig true (λ _, true) fiveRunsDir = Some d'
         ∧ (∀ name, name ∈ removed ++ kept ↔ isTranscript fiveRunsDir name)
         ∧ d' = removeAll (λ _, true) fiveRunsDir removed).
Proof.
  assert (Hp : pruneOldLogs negativeCapConfig true (λ _, true) fiveRunsDir = None)
    by (vm_compute; reflexivity).
  split; [reflexivity|]. split; [reflexivity|]. split; [exact Hp|].
  intros (removed & kept & d' & Hd & _). rewrite Hp in Hd. discriminate Hd.
Qed.


Example retention_cap_3_after_5_runs :
  (λ d', (λ name, d' !! name) <$>
           [ "backup-20240309-070501.log"; "backup-20240309-070502.log";
             "backup-20240309-070503.log"; "backup-20240309-070504.log";
             "backup-20240309-070505.log"; "backup-20240309-070400.log";
             "history.json"; "notes.txt" ])
    <$> pruneOldLogs exampleConfig true (λ _, true) fiveRunsDir
  = Some [ None; None; Some (File "run 3"); Some (File "run 4"); Some (File "run 5");
           Some SubDir; Some (File "..."); Some (File "keep me") ].
Proof. vm_compute. reflexivity. Qed.


(** ** Run ids *)

Lemma fieldOk_below (width : nat) (bound x : Z) :
  forallb (fieldOk width) (seqZ 0 bound) = true →
  0 ≤ x < bound →
  String.length (appendInt x width) = width ∧ readInt (appendInt x width) = Some x.
Proof.
  intros Hall Hx. apply Is_true_true, forallb_True in Hall.
  rewrite Forall_forall in Hall. specialize (Hall x).
  unfold fieldOk in Hall. rewrite andb_True, !bool_decide_spec in Hall.
  apply Hall, elem_of_seqZ. lia.
Qed.

Lemma two_digits_ok : forallb (fieldOk 2) (seqZ 0 100) = true.
Proof. vm_compute. reflexivity. Qed.

Lemma four_digits_ok : forallb (fieldOk 4) (seqZ 0 10000) = true.
Proof. vm_compute. reflexivity. Qed.

Lemma append_inv_l (s1 s2 t1 t2 : string) :
  String.length s1 = String.length s2 → s1 +:+ t1 = s2 +:+ t2 → s1 = s2 ∧ t1 = t2.
Proof.
  revert s2. induction s1 as [|a s1 IH]; intros [|b s2] Hlen Heq; try done.
  rewrite !append_cons in Heq. injection Heq as -> Heq. injection Hlen as Hlen.
  destruct (IH _ Hlen Heq) as [-> ->]. done.
Qed.

(** Printed fields of equal width that agree come from equal numbers. *)
Lemma field_inj (width : nat) (bound x y : Z) (k1 k2 : string) :
  forallb (fieldOk width) (seqZ 0 bound) = true →
  0 ≤ x < bound → 0 ≤ y < bound →
  appendInt x width +:+ k1 = appendInt y width +:+ k2 →
  x = y ∧ k1 = k2.
Proof.
  intros Hall Hx Hy Heq.
  destruct (fieldOk_below width bound x Hall Hx) as [Hlx Hrx].
  destruct (fieldOk_below width bound y Hall Hy) as [Hly Hry].
  apply append_inv_l in Heq as [Heq ->]; [|congruence].
  split; [|done]. rewrite Heq in Hrx. congruence.
Qed.

Lemma FormatStamp_same_second (t u : Time) :
  sameSecond t u → FormatStamp t = FormatStamp u.
Proof.
  intros (Hy & Hmo & Hd & Hh & Hmi & Hs). unfold FormatStamp. congruence.
Qed.

Lemma FormatStamp_inj (t u : Time) :
  wallClock t → wallClock u → FormatStamp t = FormatStamp u → sameSecond t u.
Proof.
  intros (Hy1 & Hmo1 & Hd1 & Hh1 & Hmi1 & Hs1) (Hy2 & Hmo2 & Hd2 & Hh2 & Hmi2 & Hs2) Heq.
  unfold FormatStamp in Heq.
  apply (field_inj 4 10000) in Heq as [Hy Heq]; [|apply four_digits_ok|lia..].
  apply (field_inj 2 100) in Heq as [Hmo Heq]; [|apply two_digits_ok|lia..].
  apply (field_inj 2 100) in Heq as [Hd Heq]; [|apply two_digits_ok|lia..].
  apply (append_inv_l "-" "-") in Heq as [_ Heq]; [|done].
  apply (field_inj 2 100) in Heq as [Hh Heq]; [|apply two_digits_ok|lia..].
  apply (field_inj 2 100) in Heq as [Hmi Heq]; [|apply two_digits_ok|lia..].
  rewrite <- (append_nil_r (appendInt (second t) 2)) in Heq.
  rewrite <- (append_nil_r (appendInt (second u) 2)) in Heq.
  apply (field_inj 2 100) in Heq as [Hs _]; [|apply two_digits_ok|lia..].
  done.
Qed.

Section ids.
Context `{JSON}.

(** An event keeps the id of every allocated record. *)
Lemma handle_keeps_ids ev w w' p r :
  handle ev w = Some w' → heap w !! p = Some r →
  ∃ r', heap w' !! p = Some r' ∧ ID r' = ID r.
Proof.
  intros Hev Hp. apply handle_effect in Hev.
  destruct Hev as [He Hh|n1 n2 Hs He Hh|q r0 c s n Hq He Hh]; rewrite Hh.
  - by exists r.
  - exists r. split; [|done]. apply lookup_app_l_Some, Hp.
  - destruct (decide (q = p)) as [->|Hne].
    + eexists. split; [apply list_lookup_insert_eq; by eapply lookup_lt_Some|].
      cbn. congruence.
    + exists r. by rewrite list_lookup_insert_ne.
Qed.

(** Only an accepted [Run] allocates a record. *)
Lemma handle_new_record ev w w' p r :
  handle ev w = Some w' → heap w !! p = None → heap w' !! p = Some r →
  ∃ now1 now2, ev = CallRun now1 now2 ∧ p = length (heap w)
               ∧ r = startedRecord now1 now2.
Proof.
  intros Hev Hp Hp'. apply lookup_ge_None in Hp.
  destruct ev as [now1 now2|i o|j o| | | | |f]; cbn [handle] in Hev;
    try (injection Hev as <-; apply lookup_lt_Some in Hp'; lia).
  - exists now1, now2. injection Hev as <-. revert Hp'. unfold Run.
    case_bool_decide; cbn [snd heap]; intros Hp'.
    + apply lookup_lt_Some in Hp'. lia.
    + apply lookup_lt_Some in Hp' as Hlt. rewrite length_app in Hlt. cbn in Hlt.
      assert (p = length (heap w)) as -> by lia.
      rewrite lookup_app_r, Nat.sub_diag in Hp' by done. cbn in Hp'.
      split; [done|]. split; [done|]. by injection Hp' as <-.
  - destruct (pending w !! i) as [[q logPath]|]; [|done]. injection Hev as <-.
    apply lookup_lt_Some in Hp'. cbn [heap] in Hp'. lia.
  - destruct (goroutines w !! j) as [g|]; [|done].
    destruct (goroutine_step g o w) as [[w1 stage]|] eqn:Hstep; [|done].
    injection Hev as <-. apply goroutine_step_frame in Hstep as (_ & _ & Hlen & _).
    apply lookup_lt_Some in Hp'. cbn [heap] in Hp'. lia.
Qed.

(** Records enter the history with the id of their run object. *)
Lemma handle_history_ids ev w w' r :
  handle ev w = Some w' → r ∈ History w' →
  r ∈ History w ∨ ∃ p r0, heap w !! p = Some r0 ∧ ID r = ID r0.
Proof.
  intros Hev Hin. apply handle_effect in Hev. unfold History in *.
  destruct Hev as [He Hh|n1 n2 Hs He Hh|q r0 c s n Hq He Hh];
    rewrite He in Hin; cbn [history] in Hin; [by left..|].
  apply elem_of_take in Hin as (i & Hi & _).
  destruct i as [|i]; cbn in Hi.
  - right. exists q, r0. split; [done|]. by injection Hi as <-.
  - left. by eapply list_elem_of_lookup_2.
Qed.
End ids.

(** C10, as stated, fails: two runs of one process, started within the
    same second (the first finished before the second began), carry the
    same id. *)
Lemma C10_counterexample :
  ∃ w r1 r2,
    @run_trace wireJSON collidingTrace (@boot wireJSON exampleConfig ∅) = Some w
    ∧ heap w !! 0%nat = Some r1 ∧ heap w !! 1%nat = Some r2
    ∧ StartTime r1 ≠ StartTime r2
    ∧ ID r1 = ID r2.
Proof.
  eexists _, _, _. split; [vm_compute; reflexivity|].
  split; [reflexivity|]. split; [reflexivity|]. split; [|reflexivity].
  cbn. discriminate.
Qed.

(** C10 (amended). The id of a run is the clock reading taken by [Run],
    printed as YYYYMMDD-HHMMSS, hence at second resolution; no event
    changes the id of a run object once allocated, and a record enters the
    history with the id of its run object. Two wall-clock readings give
    the same id exactly when they agree in year, month, day, hour, minute
    and second: runs started in different seconds have different ids, and
    runs started within one second share their id. *)
Theorem C10_run_ids `{JSON} (ev : event) (w w' : World) :
  handle ev w = Some w' →
  (∀ p r, heap w !! p = Some r → ∃ r', heap w' !! p = Some r' ∧ ID r' = ID r)
  ∧ (∀ p r, heap w !! p = None → heap w' !! p = Some r →
       ∃ now1 now2, ev = CallRun now1 now2 ∧ p = length (heap w)
                    ∧ ID r = FormatStamp now1 ∧ StartTime r = now2)
  ∧ (∀ r, r ∈ History w' →
       r ∈ History w ∨ ∃ p r0, heap w !! p = Some r0 ∧ ID r = ID r0)
  ∧ (∀ t u, sameSecond t u → FormatStamp t = FormatStamp u)
  ∧ (∀ t u, wallClock t → wallClock u →
       (FormatStamp t = FormatStamp u ↔ sameSecond t u)).
Proof.
  intros Hev. split; [|split; [|split; [|split]]].
  - intros p r. by apply (handle_keeps_ids ev).
  - intros p r Hp Hp'.
    destruct (handle_new_record ev w w' p r Hev Hp Hp') as (now1 & now2 & -> & -> & ->).
    by exists now1, now2.
  - intros r. by apply (handle_history_ids ev).
  - apply FormatStamp_same_second.
  - intros t u Ht Hu. split; [by apply FormatStamp_inj|apply FormatStamp_same_second].
Qed.

Lemma C10_witness :
  let w := @boot wireJSON exampleConfig ∅ in
  ∃ w', @handle wireJSON (CallRun (clock 7 5 1 100) (clock 7 5 1 101)) w = Some w'
        ∧ (ID <$> heap w' !! 0%nat) = Some "20240309-070501"
        ∧ FormatStamp (clock 7 5 1 100) ≠ FormatStamp (clock 7 5 2 100).
Proof.
  intros w. eexists. split; [reflexivity|].
  destruct (@C10_run_ids wireJSON (CallRun (clock 7 5 1 100) (clock 7 5 1 101)) w _ eq_refl)
    as (_ & Hnew & _ & _ & Hinj).
  split.
  - destruct (Hnew 0%nat (startedRecord (clock 7 5 1 100) (clock 7 5 1 101)) eq_refl eq_refl)
      as (n1 & n2 & Hev & _ & Hid & _).
    injection Hev as <- <-. reflexivity.
  - intros Heq. apply Hinj in Heq as (_ & _ & _ & _ & _ & Hs).
    + discriminate Hs.
    + vm_compute. intuition discriminate.
    + vm_compute. intuition discriminate.
Defined.

(** * Further properties of the executor *)

(** ** One goroutine at a time *)

Section flight.
Context `{JSON}.






(** The pruning of one run and the next run do overlap: after these
    events the goroutine of the first run has not listed the directory
    yet, and the goroutine of the second run has created its transcript. *)
Example pruning_overlaps_next_run :
  (λ w, (goStage <$> goroutines w, inFlight w, status (ex w)))
    <$> @run_trace wireJSON overlappingTrace (@boot wireJSON exampleConfig ∅)
  = Some ([ListLogs; WriteBanner], [1%nat], StatusRunning).
Proof. vm_compute. reflexivity. Qed.

End flight.

(** X3. [pruneOldLogs] ends in a run-time panic exactly when the directory
    can be listed and [MaxLogFiles] is negative, whatever the directory
    holds (an empty one included); otherwise it returns. *)
Theorem X3_prune_panics_iff_negative_cap
    (c : Config) (readOk : bool) (rmOk : string → bool) (d : gmap string Node) :
  pruneOldLogs c readOk rmOk d = None ↔ readOk = true ∧ MaxLogFiles c < 0.
Proof.
  unfold pruneOldLogs. destruct readOk; cbn [negb]; [|by split; [|intros [? _]]].
  case_bool_decide as Hle.
  - split; [done|]. intros [_ Hneg]. lia.
  - case_bool_decide as Hn.
    + split; [|done]. intros _. split; [done|]. lia.
    + split; [done|]. intros [_ Hneg]. lia.
Qed.

(** ** More on retention *)

Lemma elem_of_transcripts (d : gmap string Node) (name : string) :
  name ∈ transcripts d ↔ isTranscript d name.
Proof.
  unfold transcripts. rewrite merge_sort_Permutation. apply elem_of_logFiles.
Qed.

Lemma NoDup_transcripts (d : gmap string Node) : NoDup (transcripts d).
Proof.
  unfold transcripts. rewrite merge_sort_Permutation.
  eapply sublist_NoDup; [apply NoDup_os_ReadDir_names|].
  apply fmap_sublist, sublist_filter.
Qed.


Lemma length_transcripts (d : gmap string Node) :
  length (transcripts d) = length (filter isLogFile (os_ReadDir d)).
Proof. unfold transcripts. by rewrite length_fmap, merge_sort_Permutation. Qed.

(** With a non-negative cap, [pruneOldLogs] removes the first names of the
    ascending list of transcripts, as many as exceed the cap. *)
Lemma pruneOldLogs_removes (c : Config) (rmOk : string → bool) (d : gmap string Node) :
  0 ≤ MaxLogFiles c →
  pruneOldLogs c true rmOk d
  = Some (removeAll rmOk d
            (take (length (transcripts d) - Z.to_nat (MaxLogFiles c)) (transcripts d))).
Proof.
  intros Hmax. rewrite length_transcripts. unfold pruneOldLogs, transcripts. cbn [negb].
  case_bool_decide as Hle.
  - replace (length (filter isLogFile (os_ReadDir d)) - Z.to_nat (MaxLogFiles c))%nat
      with 0%nat by lia.
    by rewrite take_0.
  - rewrite bool_decide_eq_false_2 by lia.
    replace (Z.to_nat (Z.of_nat (length (filter isLogFile (os_ReadDir d))) - MaxLogFiles c))
      with (length (filter isLogFile (os_ReadDir d)) - Z.to_nat (MaxLogFiles c))%nat by lia.
    unfold removeAll. by rewrite <- fmap_take, foldl_fmap.
Qed.

(** Whatever the cap, an entry that is not a transcript stays. *)
Lemma pruneOldLogs_other (c : Config) readOk (rmOk : string → bool)
    (d d' : gmap string Node) (name : string) :
  pruneOldLogs c readOk rmOk d = Some d' →
  ¬ isTranscript d name →
  d' !! name = d !! name.
Proof.
  unfold pruneOldLogs. destruct readOk; cbn [negb]; [|by intros [= <-]].
  case_bool_decide; [by intros [= <-]|]. case_bool_decide; [done|].
  intros [= <-] Hn.
  rewrite <- (foldl_fmap (λ m k, os_Remove m k (rmOk k)) d _ Name).
  match goal with
  | |- foldl ?f d ?l !! name = _ => change (foldl f d l) with (removeAll rmOk d l)
  end.
  rewrite removeAll_lookup, bool_decide_eq_false_2; [done|].
  intros Hin. apply Hn, elem_of_transcripts. unfold transcripts.
  rewrite fmap_take in Hin. eapply elem_of_sublist; [exact Hin|apply sublist_take].
Qed.



(** X5. Pruning twice is pruning once: after a pruning whose removals all
    succeed, the directory holds at most [MaxLogFiles] transcripts and a
    second pruning removes nothing. *)
Theorem X5_prune_idempotent (c : Config) (d d' : gmap string Node) :
  0 ≤ MaxLogFiles c →
  pruneOldLogs c true (λ _, true) d = Some d' →
  (length (transcripts d') ≤ Z.to_nat (MaxLogFiles c))%nat
  ∧ pruneOldLogs c true (λ _, true) d' = Some d'.
Proof.
  intros Hmax Hp. rewrite pruneOldLogs_removes in Hp by done. injection Hp as <-.
  set (n := (length (transcripts d) - Z.to_nat (MaxLogFiles c))%nat).
  set (d' := removeAll (λ _, true) d (take n (transcripts d))).
  assert (Hperm : transcripts d' ≡ₚ drop n (transcripts d)).
  { apply NoDup_Permutation.
    - apply NoDup_transcripts.
    - pose proof (NoDup_transcripts d) as Hnd.
      rewrite <- (take_drop n (transcripts d)) in Hnd. by apply NoDup_app in Hnd as (_ & _ & ?).
    - intros name. rewrite elem_of_transcripts. unfold isTranscript, d'.
      rewrite removeAll_lookup, andb_true_r.
      pose proof (NoDup_transcripts d) as Hnd.
      rewrite <- (take_drop n (transcripts d)) in Hnd.
      apply NoDup_app in Hnd as (_ & Hdisj & _).
      split.
      + intros ([data Hl] & Hpre & Hsuf). case_bool_decide as Hin; [done|].
        assert (Ht : name ∈ transcripts d) by (apply elem_of_transcripts; unfold isTranscript; eauto).
        rewrite <- (take_drop n (transcripts d)) in Ht.
        by apply elem_of_app in Ht as [?|?].
      + intros Hin.
        assert (Ht : name ∈ transcripts d).
        { rewrite <- (take_drop n (transcripts d)). apply elem_of_app. by right. }
        apply elem_of_transcripts in Ht as (Hl & Hpre & Hsuf).
        rewrite bool_decide_eq_false_2; [done|].
        intros Htake. by apply (Hdisj name). }
  assert (Hlen : (length (transcripts d') ≤ Z.to_nat (MaxLogFiles c))%nat).
  { rewrite Hperm, length_drop. lia. }
  split; [exact Hlen|].
  rewrite pruneOldLogs_removes by done.
  replace (length (transcripts d') - Z.to_nat (MaxLogFiles c))%nat with 0%nat by lia.
  by rewrite take_0.
Qed.

(** ** Transcript names *)

Lemma count_byte_append (c : ascii) (s t : string) :
  count_byte c (s +:+ t) = (count_byte c s + count_byte c t)%nat.
Proof.
  induction s as [|a s IH]; [done|]. rewrite append_cons. cbn [count_byte].
  rewrite IH. lia.
Qed.

Lemma Contains_byte_count (c : ascii) (s : string) :
  GoStrings.Contains s (String c "") = true → (1 ≤ count_byte c s)%nat.
Proof.
  induction s as [|a s IH]; cbn [GoStrings.Contains GoStrings.HasPrefix count_byte].
  - done.
  - case_decide as Hc.
    + subst a. rewrite decide_True by done. lia.
    + rewrite orb_false_l. intros Hs. apply IH in Hs. lia.
Qed.

Lemma Contains_pair_count (c : ascii) (s : string) :
  GoStrings.Contains s (String c (String c "")) = true → (2 ≤ count_byte c s)%nat.
Proof.
  induction s as [|a s IH]; cbn [GoStrings.Contains GoStrings.HasPrefix count_byte].
  - done.
  - intros Hs. apply orb_true_iff in Hs as [Hs|Hs].
    + case_decide as Hc; [|done]. subst a. rewrite decide_True by done.
      destruct s as [|b s]; [done|]. cbn [GoStrings.HasPrefix count_byte] in *.
      case_decide as Hb; [|done]. subst b. rewrite decide_True by done. lia.
    + apply IH in Hs. lia.
Qed.

Lemma count_byte_digits (c : ascii) (u : Decimal.uint) :
  isDigit c = false → count_byte c (NilEmpty.string_of_uint u) = 0%nat.
Proof.
  intros Hc. unfold isDigit in Hc. apply bool_decide_eq_false in Hc.
  induction u as [|u IH|u IH|u IH|u IH|u IH|u IH|u IH|u IH|u IH|u IH];
    cbn [NilEmpty.string_of_uint count_byte]; [done|..];
    (rewrite decide_False; [by rewrite IH|]);
    intros <-; apply Hc; set_solver.
Qed.

Lemma count_byte_zeros (c : ascii) (n : nat) :
  isDigit c = false → count_byte c (GoStrings.Repeat "0" n) = 0%nat.
Proof.
  intros Hc. induction n as [|n IH]; [done|].
  cbn [GoStrings.Repeat]. rewrite count_byte_append, IH. cbn.
  rewrite decide_False; [done|]. by intros <-.
Qed.

Lemma count_byte_appendInt (c : ascii) (x : Z) (width : nat) :
  isDigit c = false → c ≠ "-"%char → count_byte c (appendInt x width) = 0%nat.
Proof.
  intros Hc Hm. unfold appendInt. rewrite !count_byte_append, count_byte_zeros by done.
  assert (Hd : count_byte c (NilZero.string_of_uint (N.to_uint (Z.abs_N x))) = 0%nat).
  { unfold NilZero.string_of_uint. destruct (N.to_uint (Z.abs_N x)) eqn:Hu;
      rewrite <- ?Hu; try (by apply count_byte_digits).
    cbn. rewrite decide_False; [done|]. by intros <-. }
  rewrite Hd. destruct (x <? 0); cbn; [|done].
  by rewrite decide_False by done.
Qed.

Lemma count_byte_FormatStamp (c : ascii) (t : Time) :
  isDigit c = false → c ≠ "-"%char → count_byte c (FormatStamp t) = 0%nat.
Proof.
  intros Hc Hm. unfold FormatStamp.
  rewrite !count_byte_append, !count_byte_appendInt by done. cbn.
  by rewrite decide_False by done.
Qed.

Lemma transcriptName_passes_filter (now : Time) :
  GoStrings.Contains (transcriptName now) "/" = false
  ∧ GoStrings.Contains (transcriptName now) "\" = false
  ∧ GoStrings.Contains (transcriptName now) ".." = false.
Proof.
  split; [|split]; apply not_true_is_false; intros Hc;
    [apply Contains_byte_count in Hc|apply Contains_byte_count in Hc
    |apply Contains_pair_count in Hc];
    unfold transcriptName in Hc;
    rewrite !count_byte_append, count_byte_FormatStamp in Hc by done;
    vm_compute in Hc; lia.
Qed.

(** X6. Whatever the clock shows, the transcript name that [Run] gives to
    a run is accepted by the filter of [ReadLog] (no slash, no backslash,
    no two dots), counts as a log file for retention, and is not the name
    of the history file; so the transcript of a run can be asked for by
    its [LogFile] name and a run never writes over the history. *)
Theorem X6_transcript_names_are_valid `{JSON} (now1 now2 : Time) (w : World) :
  let name := transcriptName now1 in
  (BackupExecutor_Status w ≠ StatusRunning →
   LogFile <$> Current (Run now1 now2 w).2 = Some name
   ∧ pending (Run now1 now2 w).2 = pending w ++ [(length (heap w), name)])
  ∧ isLogFile (mkDirEntry name false) = true
  ∧ name ≠ historyPath
  ∧ (∀ w', (ReadLog w' name).2 = [name])
  ∧ (∀ w' data, logdir w' !! name = Some (File data) →
       ReadLog w' name = ((data, None), [name])).
Proof.
  intros name.
  destruct (transcriptName_passes_filter now1) as (Hslash & Hback & Hdots).
  fold name in Hslash, Hback, Hdots.
  split; [|split; [|split; [|split]]].
  - intros Hs. unfold Run, BackupExecutor_Status, Current in *.
    rewrite bool_decide_eq_false_2 by done. cbn.
    by rewrite lookup_app_r, Nat.sub_diag.
  - unfold isLogFile. cbn [IsDir Name negb andb]. apply andb_true_iff. split.
    + apply HasPrefix_spec. by eexists.
    + apply HasSuffix_spec. exists ("backup-" +:+ FormatStamp now1).
      unfold name, transcriptName. by rewrite append_assoc.
  - discriminate.
  - intros w'. unfold ReadLog. rewrite Hslash, Hback, Hdots. cbn [orb].
    by destruct (os_ReadFile _ _).
  - intros w' data Hl. unfold ReadLog. rewrite Hslash, Hback, Hdots. cbn [orb].
    unfold os_ReadFile. by rewrite Hl.
Qed.

(** ** Which files a process touches *)

Lemma transcriptName_shape (now : Time) :
  GoStrings.HasPrefix (transcriptName now) "backup-" = true
  ∧ GoStrings.HasSuffix (transcriptName now) ".log" = true
  ∧ transcriptName now ≠ historyPath.
Proof.
  split; [|split].
  - apply HasPrefix_spec. by eexists.
  - apply HasSuffix_spec. exists ("backup-" +:+ FormatStamp now).
    unfold transcriptName. by rewrite append_assoc.
  - discriminate.
Qed.

Lemma transcriptName_shaped (now : Time) : transcriptShaped (transcriptName now).
Proof.
  destruct (transcriptName_shape now) as (Hpre & Hsuf & _).
  unfold transcriptShaped. by rewrite Hpre, Hsuf.
Qed.

(** The names [pruneOldLogs] is going to remove are the first names of
    the ascending list of transcripts. *)
Lemma toRemove_transcripts (c : Config) readOk (d : gmap string Node) names :
  toRemove c readOk d = Some names → ∃ k, names = take k (transcripts d).
Proof.
  unfold toRemove, transcripts. destruct readOk; cbn [negb].
  - case_bool_decide; [intros [= <-]; by exists 0%nat|].
    case_bool_decide; [done|]. intros [= <-]. eexists. by rewrite fmap_take.
  - intros [= <-]. by exists 0%nat.
Qed.

Lemma toRemove_shaped (c : Config) readOk (d : gmap string Node) names name :
  toRemove c readOk d = Some names → name ∈ names → transcriptShaped name.
Proof.
  intros Hr Hin. apply toRemove_transcripts in Hr as [k ->].
  assert (Ht : name ∈ transcripts d).
  { eapply elem_of_sublist; [exact Hin|apply sublist_take]. }
  apply elem_of_transcripts in Ht as (_ & Hpre & Hsuf).
  unfold transcriptShaped. by rewrite Hpre, Hsuf.
Qed.

Lemma file_Write_other (d : gmap string Node) (name data : string) accepted other :
  other ≠ name → file_Write d name data accepted !! other = d !! other.
Proof.
  intros Hne. unfold file_Write. destruct (d !! name) as [[old|]|]; [|done..].
  by rewrite lookup_insert_ne.
Qed.

Section files.
Context `{JSON}.

Lemma saveHistory_other (e : BackupExecutor) res (d : gmap string Node) (name : string) :
  name ≠ historyPath → saveHistory e res d !! name = d !! name.
Proof.
  intros Hne. unfold saveHistory, os_WriteFile.
  destruct (json_MarshalIndent (history e)); [|done].
  destruct res; [|done|]; by rewrite lookup_insert_ne.
Qed.

Lemma finishRun_other p exitCode summary now res w (name : string) :
  name ≠ historyPath →
  logdir (finishRun p exitCode summary now res w) !! name = logdir w !! name.
Proof.
  intros Hne. unfold finishRun. destruct (heap w !! p); [|done].
  cbn [logdir]. by apply saveHistory_other.
Qed.

(** A step of a goroutine leaves every entry alone that is neither the
    history file nor named like a transcript. *)
Lemma goroutine_step_other g o w w' stage (name : string) :
  goroutine_step g o w = Some (w', stage) →
  transcriptShaped (goLogPath g) →
  (∀ names n, goStage g = RemoveLogs names → n ∈ names → transcriptShaped n) →
  name ≠ historyPath →
  transcriptShaped name = false →
  logdir w' !! name = logdir w !! name.
Proof.
  intros Hstep Hlp Hnames Hne Hshape.
  assert (Hneq : name ≠ goLogPath g).
  { intros ->. by rewrite Hshape in Hlp. }
  revert Hstep. destruct g as [p lp st]. unfold goroutine_step.
  cbn [goRun goLogPath goStage] in *.
  destruct st as [| | |code summary|code summary created| |[|n rest]|].
  - destruct (heap w !! p); [|done]. intros [= <- <-]. by apply file_Write_other.
  - intros [= <- <-]. by apply file_Write_other.
  - destruct (exitOutcome (cmdResult o)). intros [= <- <-]. by apply file_Write_other.
  - intros [= <- <-]. by apply file_Write_other.
  - intros [= <- <-]. by apply finishRun_other.
  - destruct (toRemove _ _ _); [|done]. by intros [= <- <-].
  - by intros [= <- <-].
  - intros [= <- <-]. cbn [logdir]. unfold os_Remove.
    destruct (removeOk o n); [|done]. apply lookup_delete_ne.
    intros <-. specialize (Hnames (n :: rest) n eq_refl). rewrite Hshape in Hnames.
    apply Hnames. left.
  - done.
Qed.

Lemma pending_transcripts_step ev w w' :
  pending_transcripts w → handle ev w = Some w' → pending_transcripts w'.
Proof.
  intros [Hpend Hgo] Hev.
  destruct ev as [now1 now2|i o|j o| | | | |f]; cbn [handle] in Hev;
    try (by injection Hev as <-).
  - injection Hev as <-. unfold Run, pending_transcripts.
    case_bool_decide; cbn [snd pending goroutines]; [done|]. split; [|done].
    intros p logPath Hin. apply elem_of_app in Hin as [Hin|Hin]; [by eapply Hpend|].
    apply list_elem_of_singleton in Hin. injection Hin as _ ->.
    apply transcriptName_shaped.
  - destruct (pending w !! i) as [[q lp]|] eqn:Hi; [|done]. injection Hev as <-.
    unfold pending_transcripts. cbn [pending goroutines]. split.
    + intros p logPath Hin. eapply Hpend, list_elem_of_delete_inv, Hin.
    + intros g Hin. apply elem_of_app in Hin as [Hin|Hin]; [by apply Hgo|].
      apply list_elem_of_singleton in Hin. subst g. cbn [goLogPath goStage]. split.
      * eapply Hpend, list_elem_of_lookup_2, Hi.
      * intros names name Hst. by destruct (createOk o).
  - destruct (goroutines w !! j) as [g|] eqn:Hj; [|done].
    destruct (goroutine_step g o w) as [[w1 stage]|] eqn:Hstep; [|done].
    injection Hev as <-.
    destruct (goroutine_step_frame _ _ _ _ _ Hstep) as (Hp1 & Hg1 & _ & _).
    unfold pending_transcripts. cbn [pending goroutines]. rewrite Hp1, Hg1.
    split; [done|].
    assert (Hj' : g ∈ goroutines w) by by eapply list_elem_of_lookup_2.
    intros g' Hin. apply list_elem_of_lookup in Hin as [k Hk].
    destruct (decide (k = j)) as [->|Hne].
    + rewrite list_lookup_insert_eq in Hk by by eapply lookup_lt_Some.
      injection Hk as <-. cbn [goLogPath goStage].
      destruct (Hgo g Hj') as [Hlp Hnames]. split; [done|].
      intros names name -> Hin. revert Hstep.
      destruct g as [p lp st]. unfold goroutine_step. cbn [goRun goLogPath goStage] in *.
      destruct st as [| | |code summary|code summary created| |[|n rest]|]; try done.
      * by destruct (heap w !! p).
      * by destruct (exitOutcome (cmdResult o)).
      * by destruct created.
      * destruct (toRemove _ _ _) as [names'|] eqn:Hr; [|done]. intros [= _ <-].
        by eapply toRemove_shaped.
      * intros [= _ <-]. eapply (Hnames (n :: rest)); [done|]. by right.
    + rewrite list_lookup_insert_ne in Hk by done.
      by eapply Hgo, list_elem_of_lookup_2.
Qed.

(** X7. A process changes no entry of its log directory other than the
    history file and entries named like a transcript ([backup-*.log]):
    every other entry, the settings file for one, is after any sequence
    of runs, completions and pruning what it was at startup. *)
Theorem X7_runs_touch_only_history_and_transcripts
    (c : Config) (d : gmap string Node) (evs : list event) (w : World) (name : string) :
  run_trace evs (boot c d) = Some w →
  name ≠ historyPath →
  GoStrings.HasPrefix name "backup-" && GoStrings.HasSuffix name ".log" = false →
  logdir w !! name = d !! name.
Proof.
  intros Hrun Hne Hshape. fold (transcriptShaped name) in Hshape.
  assert (Hinv : logdir w !! name = d !! name ∧ pending_transcripts w); [|by destruct Hinv].
  revert Hrun.
  apply (run_trace_invariant (λ w, logdir w !! name = d !! name ∧ pending_transcripts w)).
  - intros ev w0 w1 [Hl Hp] Hev. split; [|by eapply pending_transcripts_step].
    rewrite <- Hl. destruct Hp as [Hpend Hgo].
    destruct ev as [now1 now2|i o|j o| | | | |f]; cbn [handle] in Hev;
      try (by injection Hev as <-).
    + injection Hev as <-. unfold Run. by case_bool_decide.
    + destruct (pending w0 !! i) as [[q lp]|] eqn:Hi; [|done]. injection Hev as <-.
      cbn [logdir]. unfold os_Create. destruct (createOk o); [|done].
      apply lookup_insert_ne. intros ->.
      apply list_elem_of_lookup_2, Hpend in Hi. by rewrite Hshape in Hi.
    + destruct (goroutines w0 !! j) as [g|] eqn:Hj; [|done].
      destruct (goroutine_step g o w0) as [[w2 stage]|] eqn:Hstep; [|done].
      injection Hev as <-. cbn [logdir].
      apply list_elem_of_lookup_2, Hgo in Hj as [Hlp Hnames].
      by eapply goroutine_step_other.
  - split; [done|]. split.
    + intros p logPath Hin. by apply elem_of_nil in Hin.
    + intros g Hin. by apply elem_of_nil in Hin.
Qed.
End files.


(** ** The properties at concrete inputs *)




Lemma X5_witness :
  ∃ d', pruneOldLogs exampleConfig true (λ _, true) fiveRunsDir = Some d'
        ∧ pruneOldLogs exampleConfig true (λ _, true) d' = Some d'.
Proof.
  destruct (pruneOldLogs_succeeds exampleConfig true (λ _, true) fiveRunsDir) as [d' Hp].
  { vm_compute. discriminate. }
  exists d'. split; [exact Hp|].
  apply (X5_prune_idempotent exampleConfig fiveRunsDir d'); [|exact Hp].
  vm_compute. discriminate.
Defined.

Lemma X7_witness :
  ∃ w, @run_trace wireJSON exampleTrace (@boot wireJSON exampleConfig settingsDir) = Some w
       ∧ logdir w !! "settings.json" = Some (File "saved settings").
Proof.
  destruct (@run_trace wireJSON exampleTrace (@boot wireJSON exampleConfig settingsDir))
    as [w|] eqn:Hrun; [|vm_compute in Hrun; discriminate].
  exists w. split; [done|].
  rewrite (@X7_runs_touch_only_history_and_transcripts wireJSON exampleConfig settingsDir
             exampleTrace w "settings.json" Hrun); [by vm_compute|discriminate|by vm_compute].
Defined.


(** * Configuration and saved settings *)

Lemma wire_get_put_settings (s : Settings.TransferSettings) :
  wire_get_settings (wire_put_settings s) = Some s.
Proof.
  destruct s as [src isFile host path key].
  unfold wire_get_settings, wire_put_settings.
  cbn [Settings.SourcePath Settings.SourceIsFile Settings.RemoteHost
       Settings.RemotePath Settings.SSHKeyPath].
  rewrite WireFacts.get_put_string. cbn [mbind option_bind].
  destruct isFile.
  - change ("T" +:+ ?x) with (String "T" x). cbn [mbind option_bind].
    rewrite WireFacts.get_put_string. cbn [mbind option_bind].
    rewrite WireFacts.get_put_string. cbn [mbind option_bind].
    rewrite <- (append_nil_r (Wire.put_string key)), WireFacts.get_put_string.
    reflexivity.
  - change ("F" +:+ ?x) with (String "F" x). cbn [mbind option_bind].
    rewrite WireFacts.get_put_string. cbn [mbind option_bind].
    rewrite WireFacts.get_put_string. cbn [mbind option_bind].
    rewrite <- (append_nil_r (Wire.put_string key)), WireFacts.get_put_string.
    reflexivity.
Qed.

#[global] Instance wireSettings_roundtrip : @SettingsRoundTrip wireSettings.
Proof. intros s data [= <-]. apply wire_get_put_settings. Qed.

(** X9. Saved settings come back: after a successful
    [SaveTransferSettings] of a configuration, [LoadTransferSettings] into
    any configuration over the same log directory returns no error and
    gives that configuration the saved source, file flag, host, path and
    key while its schedule, bandwidth limit, listen address, log directory
    and log cap stay; loading into the saving configuration gives it back
    unchanged, and saving changes no other entry of the directory. *)
Theorem X9_settings_round_trip `{SettingsRoundTrip}
    (c1 c2 : Config) (d : gmap string Node) (data : string) :
  settings_MarshalIndent (GetTransferSettings c1) = Some data →
  ∃ d', SaveTransferSettings c1 true WriteDone d = (None, d')
        ∧ (∀ name, name ≠ SettingsFilePath → d' !! name = d !! name)
        ∧ (∃ c2', LoadTransferSettings c2 d' = (None, c2')
                  ∧ GetTransferSettings c2' = GetTransferSettings c1
                  ∧ serviceFields c2' = serviceFields c2
                  ∧ TransferConfigured c2' = TransferConfigured c1)
        ∧ LoadTransferSettings c1 d' = (None, c1).
Proof.
  intros Hm. unfold SaveTransferSettings. cbn [negb]. rewrite Hm.
  eexists. split; [reflexivity|]. unfold os_WriteFile. split.
  { intros name Hne. by rewrite lookup_insert_ne. }
  assert (Hload : ∀ c, LoadTransferSettings c (<[SettingsFilePath := File data]> d)
                       = (None, ApplyTransferSettings c (GetTransferSettings c1))).
  { intros c. unfold LoadTransferSettings.
    by rewrite lookup_insert_eq, (settings_roundtrip _ _ Hm). }
  split.
  - eexists. split; [apply Hload|]. by destruct c1, c2.
  - rewrite Hload. by destruct c1.
Qed.

(** X10. What the errors of the settings functions leave behind.
    [LoadTransferSettings] returns no error and the configuration as it is
    when the file is missing, and an error with the configuration as it
    is when the entry is not a readable file or does not decode; in no
    case does it change schedule, bandwidth limit, listen address, log
    directory or log cap. [SaveTransferSettings] returns no error only if
    the directory could be made, the settings encoded and the file
    written; it never touches another entry than the settings file; when
    it fails before the file is opened, the directory is as it was; when
    the write fails after that, the settings file holds the first bytes
    of the new document in place of what was saved before. *)
Theorem X10_settings_errors `{SettingsJSON}
    (c : Config) (mkdirOk : bool) (res : WriteResult) (d : gmap string Node) :
  (d !! SettingsFilePath = None → LoadTransferSettings c d = (None, c))
  ∧ ((LoadTransferSettings c d).1 ≠ None → (LoadTransferSettings c d).2 = c)
  ∧ ((LoadTransferSettings c d).1 ≠ None ↔
       d !! SettingsFilePath = Some SubDir
       ∨ ∃ data, d !! SettingsFilePath = Some (File data) ∧ settings_Unmarshal data = None)
  ∧ serviceFields (LoadTransferSettings c d).2 = serviceFields c
  ∧ ((SaveTransferSettings c mkdirOk res d).1 = None ↔
       mkdirOk = true ∧ res = WriteDone
       ∧ is_Some (settings_MarshalIndent (GetTransferSettings c)))
  ∧ (∀ name, name ≠ SettingsFilePath →
       (SaveTransferSettings c mkdirOk res d).2 !! name = d !! name)
  ∧ (mkdirOk = false ∨ res = OpenFailed
     ∨ settings_MarshalIndent (GetTransferSettings c) = None →
     (SaveTransferSettings c mkdirOk res d).2 = d)
  ∧ (∀ data n, mkdirOk = true → res = WriteFailed n →
       settings_MarshalIndent (GetTransferSettings c) = Some data →
       (SaveTransferSettings c mkdirOk res d).1 = Some (Wrapped "writing settings file")
       ∧ (SaveTransferSettings c mkdirOk res d).2 !! SettingsFilePath
         = Some (File (GoStrings.take_bytes n data))).
Proof.
  unfold LoadTransferSettings, SaveTransferSettings.
  split; [by intros ->|]. split; [|split; [|split; [|split; [|split; [|split]]]]].
  - destruct (d !! SettingsFilePath) as [[data|]|]; [|done..].
    by destruct (settings_Unmarshal data).
  - destruct (d !! SettingsFilePath) as [[data|]|].
    + destruct (settings_Unmarshal data) eqn:Hu; cbn.
      * split; [done|]. intros [?|(data' & [= <-] & Hn)]; [done|congruence].
      * split; [|done]. intros _. right. by exists data.
    + cbn. split; [|done]. intros _. by left.
    + cbn. split; [done|]. by intros [?|(? & ? & _)].
  - destruct (d !! SettingsFilePath) as [[data|]|]; [|done..].
    by destruct (settings_Unmarshal data).
  - destruct mkdirOk; cbn [negb].
    + destruct (settings_MarshalIndent _) eqn:Hm.
      * destruct res; cbn.
        -- split; [|done]. intros _. by repeat split.
        -- split; [done|]. by intros (_ & ? & _).
        -- split; [done|]. by intros (_ & ? & _).
      * cbn. split; [done|]. intros (_ & _ & [? ?]). done.
    + cbn. split; [done|]. by intros (? & _).
  - intros name Hne. destruct mkdirOk; cbn [negb]; [|done].
    destruct (settings_MarshalIndent _); [|done]. cbn [snd]. unfold os_WriteFile.
    destruct res; [|done|]; by rewrite lookup_insert_ne.
  - intros Hfail. destruct mkdirOk; cbn [negb]; [|done].
    destruct (settings_MarshalIndent _) eqn:Hm; [|done].
    by destruct Hfail as [?|[->|?]].
  - intros data n -> -> Hm. cbn [negb]. rewrite Hm. cbn.
    split; [done|]. apply lookup_insert_eq.
Qed.

(** A failed save can destroy the settings saved before: the write stops
    after two bytes, and the next start of the service cannot decode the
    file. *)
Example failed_save_loses_settings :
  let c1 := ApplyTransferSettings exampleConfig userSettings in
  ∃ d1 d2,
    @SaveTransferSettings wireSettings c1 true WriteDone ∅ = (None, d1)
    ∧ @LoadTransferSettings wireSettings exampleConfig d1 = (None, c1)
    ∧ @SaveTransferSettings wireSettings exampleConfig true (WriteFailed 2) d1
      = (Some (Wrapped "writing settings file"), d2)
    ∧ @LoadTransferSettings wireSettings exampleConfig d2
      = (Some (Wrapped "parsing settings file"), exampleConfig).
Proof. intros c1. eexists _, _. repeat split; vm_compute; reflexivity. Qed.

(** X11. [LoadConfig] checks the schedule and nothing else: it returns a
    configuration exactly when the file could be read, decodes, and has
    a non-empty schedule, and then it is the decoded configuration as it
    is. A negative [max_log_files] passes, and with it the process dies in
    [pruneOldLogs] at the end of the first run whose transcript could be
    created and whose directory could be listed. *)
Theorem X11_load_config_checks_schedule_only `{YAML} `{JSON}
    (read : error + string) (c : Config) :
  (LoadConfig read = (Some c, None) ↔
     ∃ data, read = inr data ∧ yaml_Unmarshal data defaultConfig = Some c
             ∧ Schedule c ≠ "")
  ∧ ((LoadConfig read).1 = None ↔ (LoadConfig read).2 ≠ None)
  ∧ (LoadConfig read = (Some c, None) → MaxLogFiles c < 0 →
     ∀ p logPath o w run,
       cfg (ex w) = c → heap w !! p = Some run →
       createOk o = true → readDirOk o = true →
       execute p logPath o w = None).
Proof.
  assert (Hiff : LoadConfig read = (Some c, None) ↔
     ∃ data, read = inr data ∧ yaml_Unmarshal data defaultConfig = Some c
             ∧ Schedule c ≠ "").
  { unfold LoadConfig, validate. destruct read as [e|data].
    - split; [done|]. by intros (? & ? & _).
    - destruct (yaml_Unmarshal data defaultConfig) as [c'|] eqn:Hy.
      + case_decide as Hs.
        * split; [done|]. intros (data' & [= <-] & Hy' & Hne). congruence.
        * split.
          -- intros [= <-]. by exists data.
          -- intros (data' & [= <-] & Hy' & Hne). congruence.
      + split; [done|]. intros (data' & [= <-] & Hy' & _). congruence. }
  split; [exact Hiff|]. split.
  - unfold LoadConfig, validate. destruct read as [e|data]; [done|].
    destruct (yaml_Unmarshal data defaultConfig) as [c'|]; [|done].
    by case_decide.
  - intros _ Hneg p logPath o w run Hc Hp Hcr Hrd. unfold execute.
    rewrite Hcr, Hp. cbn [negb].
    destruct (exitOutcome (cmdResult o)) as [exitCode summary].
    rewrite finishRun_cfg. cbn [ex]. rewrite Hc, Hrd.
    assert (Hnone : ∀ rm dir, pruneOldLogs c true rm dir = None).
    { intros rm dir. unfold pruneOldLogs. cbn [negb].
      rewrite bool_decide_eq_false_2 by lia. by rewrite bool_decide_eq_true_2 by lia. }
    by rewrite Hnone.
Qed.

(** * The remote check and the HTTP handlers *)

Lemma SplitByte_nonempty (s : string) (sep : ascii) : SplitByte s sep ≠ [].
Proof.
  destruct s as [|a r]; [done|]. cbn [SplitByte].
  case_decide; [done|]. by destruct (SplitByte r sep).
Qed.

Lemma Join_cons_cons (x y : string) (l : list string) (sep : string) :
  GoStrings.Join (x :: y :: l) sep = x +:+ sep +:+ GoStrings.Join (y :: l) sep.
Proof. reflexivity. Qed.

(** Joining the pieces with the separator gives the string back. *)
Lemma Join_SplitByte (s : string) (sep : ascii) :
  GoStrings.Join (SplitByte s sep) (String sep "") = s.
Proof.
  induction s as [|a r IH]; [done|]. cbn [SplitByte].
  pose proof (SplitByte_nonempty r sep) as Hne.
  destruct (SplitByte r sep) as [|x xs]; [done|].
  case_decide as Ha.
  - subst a. rewrite Join_cons_cons, IH. reflexivity.
  - destruct xs as [|y ys].
    + cbn in IH. cbn. by rewrite IH.
    + rewrite Join_cons_cons in *. rewrite append_cons. by rewrite IH.
Qed.

Lemma SplitByte_no_separator (s : string) (sep : ascii) (x : string) :
  x ∈ SplitByte s sep → count_byte sep x = 0%nat.
Proof.
  revert x. induction s as [|a r IH]; intros x; cbn [SplitByte].
  - intros Hx. by apply list_elem_of_singleton in Hx as ->.
  - pose proof (SplitByte_nonempty r sep) as Hne. case_decide as Ha.
    + intros Hx. apply elem_of_cons in Hx as [->|Hx]; [done|by apply IH].
    + destruct (SplitByte r sep) as [|y ys]; [done|].
      intros Hx. apply elem_of_cons in Hx as [->|Hx].
      * cbn [count_byte]. rewrite decide_False by done. rewrite IH; [done|by left].
      * apply IH. by right.
Qed.

Lemma length_SplitByte (s : string) (sep : ascii) :
  length (SplitByte s sep) = S (count_byte sep s).
Proof.
  induction s as [|a r IH]; [done|]. cbn [SplitByte count_byte].
  pose proof (SplitByte_nonempty r sep) as Hne. case_decide as Ha.
  - cbn. by rewrite IH.
  - destruct (SplitByte r sep) as [|y ys]; [done|]. cbn in *. lia.
Qed.

(** X12. [CheckRemotePath] runs exactly one ssh command, with the remote
    path stripped of its trailing slashes, and changes nothing else. It
    returns an error exactly when the command fails, and then no files;
    it reports a non-empty destination exactly when the trimmed output is
    not empty, and then the files are the lines of the trimmed output:
    there is at least one, none contains a line break, and joined by line
    breaks they are the trimmed output. *)
Theorem X12_check_remote_path `{GoLibrary} (out : RunError + string) (w : World) :
  let '((nonEmpty, files, err), w') := CheckRemotePath out w in
  (ex w' = ex w ∧ heap w' = heap w ∧ pending w' = pending w
   ∧ goroutines w' = goroutines w ∧ logdir w' = logdir w
   ∧ invoked w' = invoked w ++ [("ssh", remoteCheckArgs (cfg (ex w)))])
  ∧ (err ≠ None ↔ ∃ e, out = inl e)
  ∧ (nonEmpty = true ↔ ∃ text, out = inr text ∧ strings_TrimSpace text ≠ "")
  ∧ (nonEmpty = false → files = [])
  ∧ (∀ text, out = inr text → nonEmpty = true →
       files ≠ []
       ∧ GoStrings.Join files newline = strings_TrimSpace text
       ∧ length files = S (count_byte "010"%char (strings_TrimSpace text))
       ∧ ∀ f, f ∈ files → count_byte "010"%char f = 0%nat).
Proof.
  unfold CheckRemotePath. destruct out as [e|text].
  - split; [done|]. split; [split; [by exists e|done]|].
    split; [split; [done|by intros (? & ? & _)]|]. split; [done|]. by intros ? [=].
  - case_decide as Hempty.
    + split; [done|]. split; [split; [done|by intros (? & ?)]|].
      split; [split; [done|intros (? & [= <-] & ?); done]|]. split; [done|]. by intros ? _ [=].
    + split; [done|]. split; [split; [done|by intros (? & ?)]|].
      split; [split; [by exists text|done]|]. split; [done|].
      intros text' [= <-] _. split; [apply SplitByte_nonempty|].
      split; [apply Join_SplitByte|]. split; [apply length_SplitByte|].
      intros f. apply SplitByte_no_separator.
Qed.



(** X14. [handleTriggerBackup] starts a run only for a POST request made
    while no run is active: any other method is answered 405 and a POST
    during a run 409 with the text of the busy error, both without any
    change of state; otherwise the state is the one [Run] leaves (status
    Running, one more goroutine) and the answer is the redirect 303 or,
    for htmx, the status fragment. *)
Theorem X14_trigger_backup `{JSON} (method : string) (hx : bool)
    (now1 now2 : Time) (fragment : Response) (w : World) :
  let '(resp, w') := handleTriggerBackup method hx now1 now2 fragment w in
  (method ≠ "POST" → StatusCode resp = 405 ∧ w' = w)
  ∧ (method = "POST" → BackupExecutor_Status w = StatusRunning →
       StatusCode resp = 409 ∧ w' = w
       ∧ occurs_in "backup already in progress" (Body resp))
  ∧ (method = "POST" → BackupExecutor_Status w ≠ StatusRunning →
       w' = (Run now1 now2 w).2
       ∧ BackupExecutor_Status w' = StatusRunning
       ∧ pending w' = pending w ++ [(length (heap w), transcriptName now1)]
       ∧ StatusCode resp = (if hx then StatusCode fragment else 303))
  ∧ (w' ≠ w → method = "POST" ∧ BackupExecutor_Status w ≠ StatusRunning).
Proof.
  unfold handleTriggerBackup, Run, BackupExecutor_Status.
  case_bool_decide as Hm; cbn [negb].
  - case_bool_decide as Hs.
    + destruct hx; cbn.
      * split; [done|]. split; [|done]. intros _ _. split; [done|]. split; [done|].
        by exists "", "".
      * split; [done|]. split; [|done]. intros _ _. split; [done|]. split; [done|].
        by exists "", newline.
    + destruct hx; cbn.
      * split; [done|]. split; [done|]. split; [done|]. done.
      * split; [done|]. split; [done|]. split; [done|]. done.
  - split; [done|]. split; [done|]. split; [done|]. done.
Qed.

(** X15. [handleRemoteWarningFragment] always answers 200 and never
    changes the executor. Once the history holds a record it runs no
    command and the body is empty; with an empty history it runs the ssh
    check once, and the body is not empty exactly when the check succeeds
    with a non-blank output; the warning then shows the escaped list of
    the remote files, joined by commas, followed by dots when there are
    five or more. *)
Theorem X15_remote_warning_fragment `{GoLibrary} (out : RunError + string) (w : World) :
  let '(resp, w') := handleRemoteWarningFragment out w in
  StatusCode resp = 200
  ∧ ex w' = ex w ∧ logdir w' = logdir w
  ∧ (History w ≠ [] → w' = w ∧ Body resp = "")
  ∧ (History w = [] →
       invoked w' = invoked w ++ [("ssh", remoteCheckArgs (cfg (ex w)))])
  ∧ (Body resp ≠ "" ↔
       History w = [] ∧ ∃ text, out = inr text ∧ strings_TrimSpace text ≠ "")
  ∧ (∀ text, History w = [] → out = inr text → strings_TrimSpace text ≠ "" →
       let files := SplitByte (strings_TrimSpace text) "010"%char in
       let preview := GoStrings.Join files ", "
                      +:+ (if bool_decide (5 ≤ length files)%nat then ", ..." else "") in
       occurs_in ("<strong>" +:+ template_HTMLEscapeString preview +:+ "</strong>")
                 (Body resp)).
Proof.
  unfold handleRemoteWarningFragment, History.
  destruct (history (ex w)) as [|r rest] eqn:Hh; cbn [length].
  - rewrite bool_decide_eq_false_2 by lia.
    unfold CheckRemotePath. destruct out as [e|text].
    + cbn. split; [done|]. split; [done|]. split; [done|]. split; [done|]. split; [done|].
      split; [split; [done|by intros (_ & ? & ? & _)]|]. by intros ? _ [=].
    + case_decide as Hempty; cbn.
      * split; [done|]. split; [done|]. split; [done|]. split; [done|]. split; [done|].
        split; [split; [done|intros (_ & ? & [= <-] & ?); done]|].
        intros ? _ [= <-] ?. done.
      * split; [done|]. split; [done|]. split; [done|]. split; [done|]. split; [done|].
        split; [split; [by eauto|done]|].
        intros text' _ [= <-] _.
        eexists ("<div class=" +:+ quote +:+ "status-hint warning-hint" +:+ quote
                 +:+ " id=" +:+ quote +:+ "remote-warning" +:+ quote +:+ ">"
                 +:+ "Remote path already contains files: "),
                ("<br>"
                 +:+ "Running a backup with <code>--delete</code> will remove any files at the destination "
                 +:+ "that are not present in the source. Make sure this is the correct target."
                 +:+ "</div>").
        case_bool_decide; rewrite ?append_nil_r, !append_assoc; reflexivity.
  - rewrite bool_decide_eq_true_2 by lia. cbn.
    split; [done|]. split; [done|]. split; [done|]. split; [done|]. split; [done|].
    split; [split; [done|by intros [? _]]|]. by intros ? [=].
Qed.

(** ** The properties at concrete inputs *)

Example filepath_Base_examples :
  filepath_Base <$> [ "/api/logs/backup-20240309-070501.log"; "/foo/bar/baz/"; "dev.txt";
                      "../todo.txt"; ".."; "."; "/"; "///"; "" ]
  = [ "backup-20240309-070501.log"; "baz"; "dev.txt"; "todo.txt"; ".."; "."; "/"; "/"; "." ].
Proof. reflexivity. Qed.

Example handleLogs_traversal_attempts :
  let w := @boot wireJSON exampleConfig fiveRunsDir in
  (λ path, let '(resp, reads) := @handleLogs asciiLibrary path false w in
           (StatusCode resp, reads))
    <$> [ "/api/logs/backup-20240309-070503.log"; "/api/logs/../../etc/passwd";
          "/api/logs/.."; "/api/logs/"; "/api/logs/history.json/" ]
  = [ (200, ["backup-20240309-070503.log"]); (404, ["passwd"]); (404, []);
      (404, ["logs"]); (200, ["history.json"]) ].
Proof. vm_compute. reflexivity. Qed.

Example CheckRemotePath_two_files :
  (@CheckRemotePath asciiLibrary (inr twoRemoteFiles)
     (@boot wireJSON exampleConfig ∅)).1
  = (true, ["movies"; "shows <new>"], None).
Proof. vm_compute. reflexivity. Qed.

Example remote_warning_escapes_names :
  occurs_in "<strong>movies, shows &lt;new&gt;</strong>"
    (Body (@handleRemoteWarningFragment asciiLibrary (inr twoRemoteFiles)
             (@boot wireJSON exampleConfig ∅)).1).
Proof.
  apply Contains_spec. vm_compute. reflexivity.
Qed.

Example LoadConfig_accepts_negative_cap :
  (λ r, MaxLogFiles <$> r.1) (@LoadConfig oneDocumentYAML (inr negativeCapDocument))
  = Some (-1).
Proof. vm_compute. reflexivity. Qed.

Lemma X9_witness :
  let c1 := ApplyTransferSettings exampleConfig userSettings in
  ∃ d', @SaveTransferSettings wireSettings c1 true WriteDone fiveRunsDir = (None, d')
        ∧ (GetTransferSettings <$> (Some (@LoadTransferSettings wireSettings defaultConfig d').2))
          = Some userSettings
        ∧ d' !! historyPath = fiveRunsDir !! historyPath.
Proof.
  intros c1.
  destruct (@X9_settings_round_trip wireSettings wireSettings_roundtrip c1 defaultConfig
              fiveRunsDir (wire_put_settings userSettings) eq_refl)
    as (d' & Hs & Hother & (c2' & Hl & Hg & _) & _).
  exists d'. split; [exact Hs|]. split.
  - rewrite Hl. cbn [snd fmap option_fmap option_map]. by rewrite Hg.
  - by apply Hother.
Defined.

(** ** The dashboard data *)

(** X16. On a snapshot of any state a process can reach, the status shown
    by [dashboardData] is the status of the executor (the override for a
    current run never changes it), the last run shown is the first entry
    of the history shown, and a current run exists exactly when the status
    shown is Running, unless that status comes from a stale history
    file. Whatever states the four reads see, the status shown is Running
    exactly when a run was current at the read of [Current] or the status
    read was Running. *)
Theorem X16_dashboard_status `{JSON}
    (c : Config) (d : gmap string Node) (evs : list event) (w : World) (nextRun : Time) :
  run_trace evs (boot c d) = Some w →
  let dd := dashboardData nextRun w w w w in
  Dashboard.Status dd = BackupExecutor_Status w
  ∧ Dashboard.LastRun dd = head (Dashboard.History dd)
  ∧ (Current w ≠ None → Dashboard.Status dd = StatusRunning)
  ∧ (status (NewBackupExecutor c d) ≠ StatusRunning →
     (Dashboard.Status dd = StatusRunning ↔ Current w ≠ None))
  ∧ (∀ wLast wHist wCur wStat,
       Dashboard.Status (dashboardData nextRun wLast wHist wCur wStat) = StatusRunning
       ↔ Current wCur ≠ None ∨ BackupExecutor_Status wStat = StatusRunning).
Proof.
  intros Hrun dd.
  assert (Hinv : (current (ex w) ≠ None → status (ex w) = StatusRunning)
                 ∧ runs_live w
                 ∧ (∀ p, current (ex w) = Some p → (p < length (heap w))%nat)).
  { revert Hrun.
    apply (run_trace_invariant
             (λ w, (current (ex w) ≠ None → status (ex w) = StatusRunning)
                   ∧ runs_live w
                   ∧ (∀ p, current (ex w) = Some p → (p < length (heap w))%nat))).
    - intros ev w0 w1 (Hc & Hl & Hp) Hev. split; [|split; [by eapply runs_live_step|]].
      + apply handle_effect in Hev.
        destruct Hev as [He Hh|n1 n2 Hs He Hh|q r c0 s n Hq He Hh]; rewrite He; cbn; auto.
        done.
      + apply handle_effect in Hev.
        destruct Hev as [He Hh|n1 n2 Hs He Hh|q r c0 s n Hq He Hh]; rewrite He, Hh; cbn.
        * done.
        * intros p [= <-]. rewrite length_app. cbn. lia.
        * done.
    - unfold boot. cbn [ex heap].
      destruct (NewBackupExecutor_cases c d) as (_ & Hcur & _). rewrite Hcur.
      split; [done|]. split; [apply boot_runs_live|done]. }
  destruct Hinv as (Hcur & _ & Hlive).
  assert (Hobs : Current w ≠ None ↔ current (ex w) ≠ None).
  { unfold Current. destruct (current (ex w)) as [p|]; [|done].
    destruct (lookup_lt_is_Some_2 _ _ (Hlive p eq_refl)) as [r ->]. done. }
  split; [|split; [|split; [|split]]].
  - unfold dd, dashboardData, BackupExecutor_Status. cbn [Dashboard.Status].
    destruct (Current w) eqn:Hc; [|done].
    symmetry. by apply Hcur, Hobs.
  - done.
  - intros Hc. unfold dd, dashboardData. cbn [Dashboard.Status].
    by destruct (Current w).
  - intros Hseed. unfold dd, dashboardData. cbn [Dashboard.Status].
    destruct (Current w) eqn:Hc; [done|]. split; [|done].
    intros Hs. exfalso.
    assert (Hsf : single_flight w).
    { eapply (run_trace_invariant single_flight); [apply single_flight_step| |exact Hrun].
      unfold single_flight, boot. cbn [ex].
      destruct (NewBackupExecutor_cases c d) as (_ & -> & _). exact Hseed. }
    apply single_flight_observed in Hsf. rewrite Hc in Hsf.
    destruct Hsf as [_ Hsf]. by apply Hsf.
  - intros wLast wHist wCur wStat. unfold dashboardData. cbn [Dashboard.Status].
    destruct (Current wCur); [by split; [left|]|].
    split; [by right|]. by intros [?|?].
Qed.

Lemma X16_witness :
  ∃ w, @run_trace wireJSON exampleTrace (@boot wireJSON exampleConfig ∅) = Some w
       ∧ Dashboard.Status (dashboardData (clock 3 0 0 0) w w w w) = StatusRunning
       ∧ Dashboard.Dest (dashboardData (clock 3 0 0 0) w w w w)
         = "user@backup-host:/backups/plex".
Proof.
  destruct (@run_trace wireJSON exampleTrace (@boot wireJSON exampleConfig ∅))
    as [w|] eqn:Hrun; [|vm_compute in Hrun; discriminate].
  exists w. split; [done|].
  destruct (@X16_dashboard_status wireJSON exampleConfig ∅ exampleTrace w (clock 3 0 0 0) Hrun)
    as (Hs & _).
  split.
  - rewrite Hs. vm_compute in Hrun. injection Hrun as <-. reflexivity.
  - vm_compute in Hrun. injection Hrun as <-. reflexivity.
Defined.
